(** * Advection simulator: the integration engine of [app.py]

    A shallow embedding of the numerical core of [src/app.py] (the
    derivation of [dx], [dt], [Nt], the grid, the four initial shapes, the
    four time-stepping loops and the data that the figures read back from
    the histories), followed by the properties that the specification
    states about it and by further properties of the code.

    Numbers.  The script computes in binary64.  The embedding idealises a
    Python [float] as a real number ([R]): every arithmetic operation is
    the exact one.  Python [int]s are [Z]; a NumPy 1-D array is a [list].
    Where Python raises on a scalar operation (float division by zero) the
    embedding raises too; NumPy's array division never raises (it yields
    inf or nan, which have no real counterpart), so the shape generator is
    faithful for [sig <> 0] only.

    Limits of the idealisation.  Over the reals nothing overflows,
    underflows or is rounded.  So the embedding has no [OverflowError]
    (Python raises it at [int(round(inf))] when [T_max / dt] overflows, and
    at [C**2] for a huge [C]), no division by a [dt] that has underflowed to
    zero, its [exp] is never 0 where [np.exp] underflows, and its [Nt] can
    differ by one from the script's when [T_max / dt] is within rounding of
    a tie.  The statements that hold in exact arithmetic only say so; the
    statement about which configurations raise is restricted to magnitudes
    within the slider ranges, where binary64 neither overflows nor
    underflows. *)

From Stdlib Require Import String.
From Stdlib Require Import Reals Lra Lia ZArith List Bool Permutation.
From Stdlib Require PrimFloat.
Import ListNotations.
Local Open Scope R_scope.

(** ** Python scalars and exceptions *)

Module Py.

(** The exceptions of the embedding.  [OverflowError], which needs an
    infinite or out-of-range float, cannot arise over the reals. *)
Inductive exn : Type :=
| ZeroDivisionError
| ValueError.

(** The outcome of a statement sequence: a value, or a raised exception
    that ends the script. *)
Inductive result (A : Type) : Type :=
| Ok (a : A)
| Raise (e : exn).
Arguments Ok {A} a.
Arguments Raise {A} e.

Definition bind {A B : Type} (m : result A) (k : A -> result B) : result B :=
  match m with
  | Ok a => k a
  | Raise e => Raise e
  end.

(** [a / b] on floats: raises [ZeroDivisionError] when [b] is zero. *)
Definition truediv (a b : R) : result R :=
  if Req_dec_T b 0 then Raise ZeroDivisionError else Ok (a / b).

(** [round(x)] on a float: the nearest integer, ties to the even one. *)
Definition round (x : R) : Z :=
  let f := Zfloor x in
  let d := x - IZR f in
  if Rlt_dec d (1 / 2) then f
  else if Rlt_dec (1 / 2) d then (f + 1)%Z
  else if Z.even f then f else (f + 1)%Z.

(** [for _ in range(n): st = body(st)]; [range] of a non-positive int is
    empty. *)
Fixpoint iterate {St : Type} (n : nat) (body : St -> St) (st : St) : St :=
  match n with
  | O => st
  | S m => iterate m body (body st)
  end.

Definition for_range {St : Type} (n : Z) (body : St -> St) (st : St) : St :=
  iterate (Z.to_nat n) body st.

End Py.

Notation "x <- m ;; k" := (Py.bind m (fun x => k))
  (at level 61, m at next level, right associativity).

(** ** The NumPy operations the script uses *)

Module Np.

Definition ndarray : Type := list R.

Fixpoint zip_with {A B C : Type} (f : A -> B -> C)
         (a : list A) (b : list B) : list C :=
  match a, b with
  | x :: a', y :: b' => f x y :: zip_with f a' b'
  | _, _ => []
  end.

(** Element-wise arithmetic on arrays of one shape, and scalar
    broadcasting. *)
Definition add (a b : ndarray) : ndarray := zip_with Rplus a b.
Definition sub (a b : ndarray) : ndarray := zip_with Rminus a b.
Definition scale (c : R) (a : ndarray) : ndarray := map (Rmult c) a.
Definition sub_scalar (a : ndarray) (c : R) : ndarray :=
  map (fun x => x - c) a.
Definition rsub_scalar (c : R) (a : ndarray) : ndarray :=
  map (fun x => c - x) a.
Definition div_scalar (a : ndarray) (c : R) : ndarray :=
  map (fun x => x / c) a.
Definition square (a : ndarray) : ndarray := map (fun x => x ^ 2) a.

Definition abs (a : ndarray) : ndarray := map Rabs a.
Definition exp (a : ndarray) : ndarray := map Rtrigo_def.exp a.
Definition cos (a : ndarray) : ndarray := map Rtrigo_def.cos a.
Definition zeros_like (a : ndarray) : ndarray := map (fun _ => 0) a.

(** [a < c] against a scalar: an array of booleans. *)
Definition lt_scalar (a : ndarray) (c : R) : list bool :=
  map (fun x => if Rlt_dec x c then true else false) a.

(** [np.where(cond, a, c)] with an array [a] and a scalar [c]. *)
Definition where_ (cond : list bool) (a : ndarray) (c : R) : ndarray :=
  zip_with (fun (b : bool) x => if b then x else c) cond a.

(** [np.where(cond, c1, c2)] with two scalars. *)
Definition where_scalars (cond : list bool) (c1 c2 : R) : ndarray :=
  map (fun b : bool => if b then c1 else c2) cond.

(** [np.sum(a)] (exact arithmetic: the order of summation is immaterial). *)
Definition sum (a : ndarray) : R := fold_right Rplus 0 a.

(** [np.roll(a, shift)] on a 1-D array: the offset is [shift] reduced
    modulo the length ([or 1] for the empty array); when it is not zero
    the result is [a[-offset:]] followed by [a[:-offset]]. *)
Definition roll {A : Type} (a : list A) (shift : Z) : list A :=
  let n := length a in
  let offset := Z.to_nat (shift mod Z.of_nat (if Nat.eqb n 0 then 1 else n)) in
  if Nat.eqb offset 0 then a
  else skipn (n - offset) a ++ firstn (n - offset) a.

(** [np.linspace(start, stop, num)] with the endpoint included. *)
Definition linspace (start stop : R) (num : Z) : Py.result ndarray :=
  if (num <? 0)%Z then Py.Raise Py.ValueError
  else
    match Z.to_nat num with
    | O => Py.Ok []
    | S O => Py.Ok [start]
    | S (S m as div) =>
        let step := (stop - start) / INR div in
        Py.Ok (map (fun i => INR i * step + start) (seq 0 div) ++ [stop])
    end.

End Np.

Declare Scope np_scope.
Delimit Scope np_scope with np.
Infix "+:" := Np.add (at level 50, left associativity) : np_scope.
Infix "-:" := Np.sub (at level 50, left associativity) : np_scope.
Infix "*:" := Np.scale (at level 40, left associativity) : np_scope.
Local Open Scope np_scope.
Local Open Scope string_scope.
Local Open Scope list_scope.

(** ** The script *)

Module App.

Import Np.

(** The values read from the sidebar widgets. *)
Record Config : Type := {
  wave_shape : string;
  L : R;
  v : R;
  T_max : R;
  Nx : Z;
  C : R;
  show_fecs : bool;
  show_upwind : bool;
  show_leapfrog : bool;
  show_lw : bool;
  sigma : R;
  x0 : R
}.

(** Lines 24-26: [dx = L / float(Nx)], [dt = C * dx / v],
    [Nt = int(round(T_max / dt))], with exact quotients. *)
Definition derive (cfg : Config) : Py.result (R * R * Z) :=
  dx <- Py.truediv (L cfg) (IZR (Nx cfg)) ;;
  dt <- Py.truediv (C cfg * dx) (v cfg) ;;
  q <- Py.truediv (T_max cfg) dt ;;
  Py.Ok (dx, dt, Py.round q).

(** Lines 43-44: [x = np.linspace(0, L, Nx + 1)], then [x = x[:-1]]. *)
Definition grid (L : R) (Nx : Z) : Py.result ndarray :=
  x <- linspace 0 L (Nx + 1) ;;
  Py.Ok (removelast x).

(** Lines 46-57. *)
Definition get_initial_condition
           (x : ndarray) (shape : string) (sig center length : R) : ndarray :=
  if String.eqb shape "Gaussian Bell" then
    Np.exp ((-0.5) *: square (div_scalar (sub_scalar x center) sig))
  else if String.eqb shape "Square Pulse" then
    where_scalars (lt_scalar (Np.abs (sub_scalar x center)) sig) 1 0
  else if String.eqb shape "Triangle Wave" then
    where_ (lt_scalar (Np.abs (sub_scalar x center)) sig)
           (rsub_scalar 1 (div_scalar (Np.abs (sub_scalar x center)) sig)) 0
  else if String.eqb shape "Cosine Hat" then
    let r := Np.abs (sub_scalar x center) in
    let cond := lt_scalar r sig in
    where_ cond (square (Np.cos (div_scalar (PI *: r) (2 * sig)))) 0
  else zeros_like x.

(** The state of a one-level loop: the variables [u], [u_all], [mass]. *)
Record state : Type := {
  u : ndarray;
  u_all : list ndarray;
  mass : list R
}.

Definition init_state (u0 : ndarray) (dx : R) : state :=
  {| u := u0; u_all := [u0]; mass := [sum u0 * dx] |}.

(** The tail shared by the loop bodies: [u = u_next],
    [u_all.append(u.copy())], [mass.append(np.sum(u) * dx)]. *)
Definition record_step (dx : R) (st : state) (u_next : ndarray) : state :=
  {| u := u_next;
     u_all := u_all st ++ [u_next];
     mass := mass st ++ [sum u_next * dx] |}.

(** Line 69. *)
Definition fecs_update (C : R) (u : ndarray) : ndarray :=
  u -: (0.5 * C) *: (roll u (-1) -: roll u 1).

(** Line 81. *)
Definition upwind_update (C : R) (u : ndarray) : ndarray :=
  u -: C *: (u -: roll u 1).

(** Lines 108-110. *)
Definition lw_update (C : R) (u : ndarray) : ndarray :=
  let term1 := (0.5 * C) *: (roll u (-1) -: roll u 1) in
  let term2 := (0.5 * C ^ 2) *: (roll u (-1) -: 2 *: u +: roll u 1) in
  u -: term1 +: term2.

(** Lines 64-74. *)
Definition fecs (u0 : ndarray) (C dx : R) (Nt : Z) : list ndarray * list R :=
  let st := Py.for_range Nt
              (fun st => record_step dx st (fecs_update C (u st)))
              (init_state u0 dx) in
  (u_all st, mass st).

(** Lines 76-86. *)
Definition upwind (u0 : ndarray) (C dx : R) (Nt : Z) : list ndarray * list R :=
  let st := Py.for_range Nt
              (fun st => record_step dx st (upwind_update C (u st)))
              (init_state u0 dx) in
  (u_all st, mass st).

(** The state of the Leapfrog loop: [u_prev], [u_curr], [u_all], [mass]. *)
Record state2 : Type := {
  u_prev : ndarray;
  u_curr : ndarray;
  u_all2 : list ndarray;
  mass2 : list R
}.

(** Lines 95-99. *)
Definition leapfrog_body (C dx : R) (st : state2) : state2 :=
  let u_next := u_prev st -: C *: (roll (u_curr st) (-1) -: roll (u_curr st) 1) in
  {| u_prev := u_curr st;
     u_curr := u_next;
     u_all2 := u_all2 st ++ [u_next];
     mass2 := mass2 st ++ [sum u_next * dx] |}.

(** Lines 88-101. *)
Definition leapfrog (u0 : ndarray) (C dx : R) (Nt : Z) : list ndarray * list R :=
  let u_prev0 := u0 in
  let u_curr0 := u_prev0 -: (0.5 * C) *: (roll u_prev0 (-1) -: roll u_prev0 1) in
  let st0 := {| u_prev := u_prev0;
                u_curr := u_curr0;
                u_all2 := [u_prev0; u_curr0];
                mass2 := [sum u_prev0 * dx; sum u_curr0 * dx] |} in
  let st := Py.for_range (Nt - 1) (leapfrog_body C dx) st0 in
  (u_all2 st, mass2 st).

(** Lines 103-115. *)
Definition lax_wendroff (u0 : ndarray) (C dx : R) (Nt : Z)
  : list ndarray * list R :=
  let st := Py.for_range Nt
              (fun st => record_step dx st (lw_update C (u st)))
              (init_state u0 dx) in
  (u_all st, mass st).

(** The dictionaries [solvers] and [integrals], in insertion order. *)
Record Output : Type := {
  out_x : ndarray;
  out_u0 : ndarray;
  solvers : list (string * list ndarray);
  integrals : list (string * list R)
}.

(** The blocks guarded by [if show_fecs:], [if show_upwind:],
    [if show_leapfrog:], [if show_lw:] (lines 64, 76, 88, 103), in the order
    of the script. *)
Definition enabled (cfg : Config)
  : list (string * (ndarray -> R -> R -> Z -> list ndarray * list R)) :=
  (if show_fecs cfg then [("FECS", fecs)] else [])
    ++ (if show_upwind cfg then [("Upwind", upwind)] else [])
    ++ (if show_leapfrog cfg then [("Leapfrog", leapfrog)] else [])
    ++ (if show_lw cfg then [("Lax-Wendroff", lax_wendroff)] else []).

(** Lines 24-115: parameters, grid, initial condition, then every enabled
    integrator in turn. *)
Definition run (cfg : Config) : Py.result Output :=
  params <- derive cfg ;;
  let '(dx, dt, Nt) := params in
  x <- grid (L cfg) (Nx cfg) ;;
  let u0 := get_initial_condition x (wave_shape cfg) (sigma cfg) (x0 cfg) (L cfg) in
  let runs := map (fun '(name, f) => (name, f u0 (C cfg) dx Nt)) (enabled cfg) in
  Py.Ok {| out_x := x;
           out_u0 := u0;
           solvers := map (fun '(name, r) => (name, fst r)) runs;
           integrals := map (fun '(name, r) => (name, snd r)) runs |}.

End App.

(** ** Vocabulary of the properties *)

(** The two fields a Leapfrog run holds after [n] passes of its loop:
    [(u_prev, u_curr)], that is steps [n] and [n + 1]. *)
Fixpoint leapfrog_levels (C : R) (u0 : Np.ndarray) (n : nat) : Np.ndarray * Np.ndarray :=
  match n with
  | O => (u0, u0 -: (0.5 * C) *: (Np.roll u0 (-1) -: Np.roll u0 1))
  | S m =>
      let pc := leapfrog_levels C u0 m in
      (snd pc, fst pc -: C *: (Np.roll (snd pc) (-1) -: Np.roll (snd pc) 1))
  end.

(** The four integrators under the keys of [solvers]. *)
Definition all_schemes
  : list (string * (Np.ndarray -> R -> R -> Z -> list Np.ndarray * list R)) :=
  [("FECS", App.fecs); ("Upwind", App.upwind);
   ("Leapfrog", App.leapfrog); ("Lax-Wendroff", App.lax_wendroff)].

(** The values of the neighbours on a periodic grid, by index: entry [i]
    holds the value at [(i + 1) mod Nx], respectively [(i - 1) mod Nx]. *)
Definition right_neighbours {A : Type} (a : list A) : list (option A) :=
  map (fun i => nth_error a ((i + 1) mod length a)) (seq 0 (length a)).

Definition left_neighbours {A : Type} (a : list A) : list (option A) :=
  map (fun i => nth_error a ((i + length a - 1) mod length a)) (seq 0 (length a)).

(** The last snapshot of a history. *)
Definition final_field (history : list Np.ndarray) : Np.ndarray := last history [].

(** max |u| over a field. *)
Definition max_abs (a : Np.ndarray) : R := fold_right Rmax 0 (map Rabs a).

(** The field moved [n] positions to the left: entry [i] holds the value
    that was at [i + n]. *)
Definition shifted_left {A : Type} (a : list A) (n : nat) : list A :=
  skipn (n mod length a) a ++ firstn (n mod length a) a.

(** The FECS update as the specification writes it, with its
    [R(u) = shift(u, +1)] and [L(u) = shift(u, -1)]. *)
Definition fecs_update_as_specified (C : R) (u : Np.ndarray) : Np.ndarray :=
  u -: (0.5 * C) *: (Np.roll u 1 -: Np.roll u (-1)).

(** A configuration with a negative simulation time and every other
    parameter in range. *)
Definition negative_time_config : App.Config :=
  {| App.wave_shape := "Square Pulse";
     App.L := 1; App.v := 1; App.T_max := -1; App.Nx := 4; App.C := 1;
     App.show_fecs := true; App.show_upwind := true;
     App.show_leapfrog := true; App.show_lw := true;
     App.sigma := 0.3; App.x0 := 0.5 |}.

(** The sum of the squares of a field. *)
Definition sum_sq (a : Np.ndarray) : R := Np.sum (Np.square a).

(** The sample points [i * dx], [i = 0 .. Nx - 1]. *)
Definition grid_points (L : R) (Nx : nat) : Np.ndarray :=
  map (fun i => INR i * (L / INR Nx)) (seq 0 Nx).

(** The Bell initial condition of the default sidebar values
    ([L = 1], [Nx = 100], [sigma = 0.05], [x0 = L / 4]). *)
Definition default_bell : Np.ndarray :=
  App.get_initial_condition (grid_points 1 100) "Gaussian Bell" 0.05 0.25 1.


(** Slider values giving the largest time step: [dt = 40] against
    [T_max = 0.1]. *)
Definition largest_step_config : App.Config :=
  {| App.wave_shape := "Gaussian Bell";
     App.L := 100; App.v := 0.1; App.T_max := 0.1; App.Nx := 50; App.C := 2;
     App.show_fecs := true; App.show_upwind := true;
     App.show_leapfrog := true; App.show_lw := true;
     App.sigma := 0.05; App.x0 := 25 |}.

(** A configuration without grid points. *)
Definition empty_grid_config : App.Config :=
  {| App.wave_shape := "Gaussian Bell";
     App.L := 1; App.v := 1; App.T_max := 1; App.Nx := 0; App.C := 0.8;
     App.show_fecs := true; App.show_upwind := true;
     App.show_leapfrog := true; App.show_lw := true;
     App.sigma := 0.05; App.x0 := 0.25 |}.

(** One cell of the Upwind update (line 81) as the script computes it, in
    binary64: [x] is the cell, [l] its left neighbour. *)
Module Binary64.
Import PrimFloat.

Definition upwind_cell (C x l : float) : float := (x - C * (x - l))%float.

Definition zero : float := 0%float.
Definition one : float := 1%float.
Definition tiny : float := 0x1p-60%float.

End Binary64.

(** ** The figures

    The part of the script that reads the histories back: the initial
    traces, the animation frames and the heat maps (lines 118-171).  Only
    the data handed to the plotting library is modelled. *)

Module Plot.

(** [l[k]] on a Python list; [None] stands for [IndexError]. *)
Definition getitem {A : Type} (l : list A) (k : Z) : option A :=
  let n := Z.of_nat (length l) in
  if (k <? 0)%Z then
    if (k + n <? 0)%Z then None else nth_error l (Z.to_nat (k + n))
  else nth_error l (Z.to_nat k).

(** [range(0, stop, step)] for a positive [step]. *)
Definition range_step (stop step : Z) : list Z :=
  if (stop <=? 0)%Z then []
  else map (fun i => (Z.of_nat i * step)%Z)
           (seq 0 (Z.to_nat ((stop - 1) / step + 1))).

(** Line 131: [step_skip = max(1, Nt // 50)]. *)
Definition step_skip (Nt : Z) : Z := Z.max 1 (Nt / 50).

(** A loop that builds a list and stops at the first failure. *)
Fixpoint traverse {A B : Type} (f : A -> option B) (l : list A)
  : option (list B) :=
  match l with
  | [] => Some []
  | x :: l' =>
      match f x with
      | None => None
      | Some y =>
          match traverse f l' with
          | None => None
          | Some ys => Some (y :: ys)
          end
      end
  end.

(** Lines 122-129: one trace per solver, [y = data[0]]. *)
Definition initial_traces (solvers : list (string * list Np.ndarray))
  : option (list (string * Np.ndarray)) :=
  traverse (fun entry => option_map (pair (fst entry)) (getitem (snd entry) 0))
           solvers.

(** Lines 134-136: [y = data[k]] for each solver. *)
Definition frame_data (solvers : list (string * list Np.ndarray)) (k : Z)
  : option (list Np.ndarray) :=
  traverse (fun entry => getitem (snd entry) k) solvers.

(** Lines 130-137: a frame, named by its step, for each
    [k in range(0, Nt + 1, step_skip)]. *)
Definition frames (solvers : list (string * list Np.ndarray)) (Nt : Z)
  : option (list (Z * list Np.ndarray)) :=
  traverse (fun k => option_map (pair k) (frame_data solvers k))
           (range_step (Nt + 1) (step_skip Nt)).

(** Lines 151-162: for each solver the matrix [z] of its snapshots and the
    time axis [y = np.linspace(0, T_max, Nt + 1)]. *)
Fixpoint heatmaps (solvers : list (string * list Np.ndarray)) (T_max : R) (Nt : Z)
  : Py.result (list (string * list Np.ndarray * Np.ndarray)) :=
  match solvers with
  | [] => Py.Ok []
  | (solver, data_matrix) :: rest =>
      t_vals_heat <- Np.linspace 0 T_max (Nt + 1) ;;
      maps <- heatmaps rest T_max Nt ;;
      Py.Ok ((solver, data_matrix, t_vals_heat) :: maps)
  end.

End Plot.

(** ** Further vocabulary *)

(** The value of a shape at one point. *)
Definition profile (shape : string) (sig center xi : R) : R :=
  if String.eqb shape "Gaussian Bell" then
    exp (-0.5 * ((xi - center) / sig) ^ 2)
  else if String.eqb shape "Square Pulse" then
    if Rlt_dec (Rabs (xi - center)) sig then 1 else 0
  else if String.eqb shape "Triangle Wave" then
    if Rlt_dec (Rabs (xi - center)) sig
    then 1 - Rabs (xi - center) / sig else 0
  else if String.eqb shape "Cosine Hat" then
    if Rlt_dec (Rabs (xi - center)) sig
    then cos (PI * Rabs (xi - center) / (2 * sig)) ^ 2 else 0
  else 0.

(** The scalar product of two fields. *)
Definition dot (a b : Np.ndarray) : R := Np.sum (Np.zip_with Rmult a b).

(** The centred difference [u[i+1] - u[i-1]] and the second difference
    [u[i+1] - 2 u[i] + u[i-1]] of the update formulas. *)
Definition centred (u : Np.ndarray) : Np.ndarray :=
  Np.roll u (-1) -: Np.roll u 1.

Definition second_difference (u : Np.ndarray) : Np.ndarray :=
  Np.roll u (-1) -: 2 *: u +: Np.roll u 1.

(** The quadratic form that the Leapfrog recurrence keeps, on two
    consecutive levels. *)
Definition leapfrog_energy (C : R) (p c : Np.ndarray) : R :=
  sum_sq p + sum_sq c + C * dot c (centred p).

(** The one-level integrators with the update each repeats. *)
Definition one_level_schemes
  : list ((Np.ndarray -> R -> R -> Z -> list Np.ndarray * list R)
          * (R -> Np.ndarray -> Np.ndarray)) :=
  [(App.fecs, App.fecs_update); (App.upwind, App.upwind_update);
   (App.lax_wendroff, App.lw_update)].

(** A setting where [T_max / dt] is 2.5. *)
Definition half_step_config : App.Config :=
  {| App.wave_shape := "Square Pulse";
     App.L := 1; App.v := 1; App.T_max := 0.625; App.Nx := 4; App.C := 1;
     App.show_fecs := true; App.show_upwind := true;
     App.show_leapfrog := true; App.show_lw := true;
     App.sigma := 0.3; App.x0 := 0.5 |}.


(** A configuration in which [L], [v], [T_max], [C] and [sigma] are all
    negative, with magnitudes within the slider ranges. *)
Definition negative_signs_config : App.Config :=
  {| App.wave_shape := "Square Pulse";
     App.L := -1; App.v := -1; App.T_max := -1; App.Nx := 4; App.C := -1;
     App.show_fecs := true; App.show_upwind := true;
     App.show_leapfrog := true; App.show_lw := true;
     App.sigma := -0.3; App.x0 := 0.5 |}.

(** The magnitudes of the parameters do not exceed the slider maxima
    (lines 17-23). *)
Definition within_slider_maxima (cfg : App.Config) : Prop :=
  Rabs (App.L cfg) <= 100
  /\ Rabs (App.v cfg) <= 5
  /\ Rabs (App.T_max cfg) <= 5
  /\ (Z.abs (App.Nx cfg) <= 800)%Z
  /\ Rabs (App.C cfg) <= 2.

(** The magnitudes of the divisors are at least the slider minima. *)
Definition at_least_slider_minima (cfg : App.Config) : Prop :=
  1 <= Rabs (App.L cfg)
  /\ 0.1 <= Rabs (App.v cfg)
  /\ (1 <= Z.abs (App.Nx cfg))%Z
  /\ 0.1 <= Rabs (App.C cfg).

(** * Properties *)

Section RollFacts.
Context {A : Type}.
Implicit Types (a : list A) (k : Z) (i : nat).

Lemma roll_offset_lt a k :
  a <> [] ->
  (Z.to_nat (k mod Z.of_nat (if Nat.eqb (length a) 0 then 1 else length a))
   < length a)%nat.
Proof.
  intros Ha. destruct a as [|x a']; [congruence|]. cbn [length Nat.eqb].
  pose proof (Z.mod_pos_bound k (Z.of_nat (S (length a')))). lia.
Qed.

Lemma roll_length a k : length (Np.roll a k) = length a.
Proof.
  unfold Np.roll.
  match goal with |- context [Nat.eqb (Z.to_nat ?z) 0] =>
    destruct (Nat.eqb (Z.to_nat z) 0) end; [reflexivity|].
  rewrite length_app, length_skipn, length_firstn. lia.
Qed.

Lemma roll_nil k : Np.roll (@nil A) k = [].
Proof. unfold Np.roll. cbn. rewrite Z.mod_1_r. reflexivity. Qed.

(** The entry at index [i] of [np.roll(a, k)] is the entry of [a] at
    index [(i - k) mod len(a)]. *)
Lemma roll_nth_error a k i :
  (i < length a)%nat ->
  nth_error (Np.roll a k) i
  = nth_error a (Z.to_nat ((Z.of_nat i - k) mod Z.of_nat (length a))).
Proof.
  intros Hi.
  assert (Ha : a <> []) by (destruct a; cbn in Hi; [lia|congruence]).
  pose proof (roll_offset_lt a k Ha) as Hoff.
  unfold Np.roll.
  destruct (Nat.eqb (length a) 0) eqn:En.
  { apply Nat.eqb_eq in En. lia. }
  set (n := length a) in *.
  assert (Hn : (0 < Z.of_nat n)%Z) by lia.
  pose proof (Z.mod_pos_bound k (Z.of_nat n) Hn) as Hb.
  pose proof (Z.div_mod k (Z.of_nat n) ltac:(lia)) as Hk.
  set (off := Z.to_nat (k mod Z.of_nat n)) in *.
  assert (Hoffz : Z.of_nat off = (k mod Z.of_nat n)%Z) by (unfold off; lia).
  destruct (Nat.eqb off 0) eqn:Eo.
  - apply Nat.eqb_eq in Eo. f_equal.
    assert (Hm : ((Z.of_nat i - k) mod Z.of_nat n = Z.of_nat i)%Z).
    { symmetry. apply (Z.mod_unique _ _ (- (k / Z.of_nat n))%Z); [lia|].
      rewrite Hk at 1. rewrite <- Hoffz, Eo. cbn. lia. }
    rewrite Hm. lia.
  - apply Nat.eqb_neq in Eo.
    destruct (Nat.lt_ge_cases i off) as [Hlt|Hge].
    + rewrite nth_error_app1 by (rewrite length_skipn; fold n; lia).
      rewrite nth_error_skipn. f_equal.
      assert (Hm : ((Z.of_nat i - k) mod Z.of_nat n
                    = Z.of_nat i - Z.of_nat off + Z.of_nat n)%Z).
      { symmetry. apply (Z.mod_unique _ _ (- (k / Z.of_nat n) - 1)%Z); [lia|].
        rewrite Hk at 1. rewrite <- Hoffz. lia. }
      rewrite Hm. lia.
    + rewrite nth_error_app2 by (rewrite length_skipn; fold n; lia).
      rewrite length_skipn. fold n.
      rewrite nth_error_firstn.
      destruct (Nat.ltb_spec (i - (n - (n - off))) (n - off)); [|lia].
      f_equal.
      assert (Hm : ((Z.of_nat i - k) mod Z.of_nat n
                    = Z.of_nat i - Z.of_nat off)%Z).
      { symmetry. apply (Z.mod_unique _ _ (- (k / Z.of_nat n))%Z); [lia|].
        rewrite Hk at 1. rewrite <- Hoffz. lia. }
      rewrite Hm. lia.
Qed.

Lemma roll_nth_error_None a k i :
  (length a <= i)%nat -> nth_error (Np.roll a k) i = None.
Proof. intros H. apply nth_error_None. rewrite roll_length. exact H. Qed.

Lemma roll_0 a : Np.roll a 0 = a.
Proof. unfold Np.roll. rewrite Z.mod_0_l; [reflexivity|]. destruct (length a); cbn; lia. Qed.

Lemma roll_roll a j k : Np.roll (Np.roll a j) k = Np.roll a (j + k).
Proof.
  apply nth_error_ext. intros i.
  destruct (Nat.lt_ge_cases i (length a)) as [Hi|Hi].
  - assert (Hn : (0 < Z.of_nat (length a))%Z) by lia.
    rewrite roll_nth_error by (rewrite roll_length; exact Hi).
    rewrite roll_length.
    pose proof (Z.mod_pos_bound (Z.of_nat i - k) _ Hn) as Hb.
    rewrite roll_nth_error by lia.
    rewrite roll_nth_error by exact Hi.
    f_equal. f_equal.
    rewrite Z2Nat.id by lia.
    rewrite Zminus_mod_idemp_l. f_equal. lia.
  - rewrite !roll_nth_error_None; [reflexivity|exact Hi|].
    rewrite roll_length. exact Hi.
Qed.

Lemma roll_singleton a k : length a = 1%nat -> Np.roll a k = a.
Proof.
  intros H. unfold Np.roll. rewrite H. cbn [Nat.eqb].
  rewrite Z.mod_1_r. reflexivity.
Qed.

Lemma roll_In a k x : In x (Np.roll a k) -> In x a.
Proof.
  unfold Np.roll.
  match goal with |- context [Nat.eqb (Z.to_nat ?z) 0] =>
    destruct (Nat.eqb (Z.to_nat z) 0) end; [tauto|].
  intros H. apply in_app_or in H.
  rewrite <- (firstn_skipn (length a - Z.to_nat (k mod Z.of_nat
            (if Nat.eqb (length a) 0 then 1 else length a))) a).
  apply in_or_app. tauto.
Qed.
End RollFacts.


(** ** Sums and lengths of the array operations *)

Lemma zip_with_length {A B C : Type} (f : A -> B -> C) a b :
  length (Np.zip_with f a b) = Nat.min (length a) (length b).
Proof.
  revert b. induction a as [|x a IH]; intros [|y b]; cbn; try reflexivity.
  now rewrite IH.
Qed.

Lemma add_length a b : length (a +: b) = Nat.min (length a) (length b).
Proof. apply zip_with_length. Qed.

Lemma sub_length a b : length (a -: b) = Nat.min (length a) (length b).
Proof. apply zip_with_length. Qed.

Lemma scale_length c a : length (c *: a) = length a.
Proof. apply length_map. Qed.

Create Rewrite HintDb np_len.
#[local] Hint Rewrite @roll_length add_length sub_length scale_length
  Nat.min_id : np_len.

Ltac np_len := autorewrite with np_len in *; try lia.

Lemma sum_app a b : Np.sum (a ++ b) = Np.sum a + Np.sum b.
Proof.
  unfold Np.sum. induction a as [|x a IH]; cbn; [lra|]. rewrite IH. lra.
Qed.

Lemma sum_roll a k : Np.sum (Np.roll a k) = Np.sum a.
Proof.
  unfold Np.roll.
  match goal with |- context [Nat.eqb (Z.to_nat ?z) 0] =>
    destruct (Nat.eqb (Z.to_nat z) 0) end; [reflexivity|].
  match goal with |- context [skipn ?m a] =>
    pose proof (firstn_skipn m a) as E;
    set (p := firstn m a) in *; set (q := skipn m a) in * end.
  rewrite <- E, !sum_app. lra.
Qed.

Lemma sum_scale c a : Np.sum (c *: a) = c * Np.sum a.
Proof.
  unfold Np.sum, Np.scale. induction a as [|x a IH]; cbn; [lra|]. rewrite IH. lra.
Qed.

Lemma sum_sub a b :
  length a = length b -> Np.sum (a -: b) = Np.sum a - Np.sum b.
Proof.
  unfold Np.sum, Np.sub. revert b.
  induction a as [|x a IH]; intros [|y b] H; cbn in *; try lra; try discriminate.
  rewrite IH by congruence. lra.
Qed.

Lemma sum_add a b :
  length a = length b -> Np.sum (a +: b) = Np.sum a + Np.sum b.
Proof.
  unfold Np.sum, Np.add. revert b.
  induction a as [|x a IH]; intros [|y b] H; cbn in *; try lra; try discriminate.
  rewrite IH by congruence. lra.
Qed.

(** ** One update of each scheme: shape and sum *)

Lemma fecs_update_length C u : length (App.fecs_update C u) = length u.
Proof. unfold App.fecs_update. np_len. Qed.

Lemma upwind_update_length C u : length (App.upwind_update C u) = length u.
Proof. unfold App.upwind_update. np_len. Qed.

Lemma lw_update_length C u : length (App.lw_update C u) = length u.
Proof. unfold App.lw_update. np_len. Qed.

Lemma fecs_update_sum C u : Np.sum (App.fecs_update C u) = Np.sum u.
Proof.
  unfold App.fecs_update.
  rewrite sum_sub, sum_scale, sum_sub, !sum_roll by np_len. lra.
Qed.

Lemma upwind_update_sum C u : Np.sum (App.upwind_update C u) = Np.sum u.
Proof.
  unfold App.upwind_update.
  rewrite sum_sub, sum_scale, sum_sub, !sum_roll by np_len. lra.
Qed.

Lemma lw_update_sum C u : Np.sum (App.lw_update C u) = Np.sum u.
Proof.
  unfold App.lw_update. cbv zeta.
  rewrite sum_add, sum_sub, !sum_scale, sum_add, !sum_sub, sum_scale, !sum_roll
    by np_len.
  lra.
Qed.

(** ** The loops in closed form *)

Lemma iterate_succ_r {St : Type} (n : nat) (body : St -> St) (st : St) :
  Py.iterate (S n) body st = body (Py.iterate n body st).
Proof.
  revert st. induction n as [|n IH]; intros st; [reflexivity|].
  change (Py.iterate (S (S n)) body st) with (Py.iterate (S n) body (body st)).
  rewrite IH. reflexivity.
Qed.

Section OneLevelLoop.
Variable upd : Np.ndarray -> Np.ndarray.
Variable dx : R.

Let body := fun st => App.record_step dx st (upd (App.u st)).

Lemma loop_u n st :
  App.u (Py.iterate n body st) = Nat.iter n upd (App.u st).
Proof.
  induction n as [|n IH]; [reflexivity|].
  rewrite iterate_succ_r. cbn. rewrite IH. reflexivity.
Qed.

Lemma loop_u_all n st :
  App.u_all (Py.iterate n body st)
  = App.u_all st ++ map (fun k => Nat.iter k upd (App.u st)) (seq 1 n).
Proof.
  induction n as [|n IH]; [cbn; now rewrite app_nil_r|].
  rewrite iterate_succ_r, seq_S, map_app, app_assoc, <- IH.
  cbn. rewrite loop_u. reflexivity.
Qed.

Lemma loop_mass n st :
  App.mass (Py.iterate n body st)
  = App.mass st
    ++ map (fun k => Np.sum (Nat.iter k upd (App.u st)) * dx) (seq 1 n).
Proof.
  induction n as [|n IH]; [cbn; now rewrite app_nil_r|].
  rewrite iterate_succ_r, seq_S, map_app, app_assoc, <- IH.
  cbn. rewrite loop_u. reflexivity.
Qed.

(** History and mass trace of a one-level scheme after [n] passes. *)
Lemma loop_history n u0 :
  App.u_all (Py.iterate n body (App.init_state u0 dx))
  = map (fun k => Nat.iter k upd u0) (seq 0 (S n)).
Proof. rewrite loop_u_all. reflexivity. Qed.

Lemma loop_mass_trace n u0 :
  App.mass (Py.iterate n body (App.init_state u0 dx))
  = map (fun k => Np.sum (Nat.iter k upd u0) * dx) (seq 0 (S n)).
Proof. rewrite loop_mass. reflexivity. Qed.
End OneLevelLoop.

Lemma fecs_closed u0 C dx Nt :
  App.fecs u0 C dx Nt
  = (map (fun k => Nat.iter k (App.fecs_update C) u0) (seq 0 (S (Z.to_nat Nt))),
     map (fun k => Np.sum (Nat.iter k (App.fecs_update C) u0) * dx)
         (seq 0 (S (Z.to_nat Nt)))).
Proof.
  unfold App.fecs, Py.for_range.
  rewrite loop_history, loop_mass_trace. reflexivity.
Qed.

Lemma upwind_closed u0 C dx Nt :
  App.upwind u0 C dx Nt
  = (map (fun k => Nat.iter k (App.upwind_update C) u0) (seq 0 (S (Z.to_nat Nt))),
     map (fun k => Np.sum (Nat.iter k (App.upwind_update C) u0) * dx)
         (seq 0 (S (Z.to_nat Nt)))).
Proof.
  unfold App.upwind, Py.for_range.
  rewrite loop_history, loop_mass_trace. reflexivity.
Qed.

Lemma lax_wendroff_closed u0 C dx Nt :
  App.lax_wendroff u0 C dx Nt
  = (map (fun k => Nat.iter k (App.lw_update C) u0) (seq 0 (S (Z.to_nat Nt))),
     map (fun k => Np.sum (Nat.iter k (App.lw_update C) u0) * dx)
         (seq 0 (S (Z.to_nat Nt)))).
Proof.
  unfold App.lax_wendroff, Py.for_range.
  rewrite loop_history, loop_mass_trace. reflexivity.
Qed.

(** ** The Leapfrog loop in closed form *)

Section LeapfrogLoop.
Variables (C dx : R) (u0 : Np.ndarray).

Let st0 : App.state2 :=
  let u1 := u0 -: (0.5 * C) *: (Np.roll u0 (-1) -: Np.roll u0 1) in
  {| App.u_prev := u0; App.u_curr := u1;
     App.u_all2 := [u0; u1];
     App.mass2 := [Np.sum u0 * dx; Np.sum u1 * dx] |}.

Lemma leapfrog_loop_levels n :
  (App.u_prev (Py.iterate n (App.leapfrog_body C dx) st0),
   App.u_curr (Py.iterate n (App.leapfrog_body C dx) st0))
  = leapfrog_levels C u0 n.
Proof.
  induction n as [|n IH]; [reflexivity|].
  rewrite iterate_succ_r. cbn. rewrite <- IH. reflexivity.
Qed.

Lemma leapfrog_loop_u_all n :
  App.u_all2 (Py.iterate n (App.leapfrog_body C dx) st0)
  = u0 :: map (fun k => snd (leapfrog_levels C u0 k)) (seq 0 (S n)).
Proof.
  induction n as [|n IH]; [reflexivity|].
  rewrite iterate_succ_r, seq_S, map_app, app_comm_cons, <- IH.
  cbn. rewrite <- leapfrog_loop_levels. reflexivity.
Qed.

Lemma leapfrog_loop_mass n :
  App.mass2 (Py.iterate n (App.leapfrog_body C dx) st0)
  = Np.sum u0 * dx
    :: map (fun k => Np.sum (snd (leapfrog_levels C u0 k)) * dx) (seq 0 (S n)).
Proof.
  induction n as [|n IH]; [reflexivity|].
  rewrite iterate_succ_r, seq_S, map_app, app_comm_cons, <- IH.
  cbn. rewrite <- leapfrog_loop_levels. reflexivity.
Qed.
End LeapfrogLoop.

Lemma leapfrog_closed u0 C dx Nt :
  App.leapfrog u0 C dx Nt
  = (u0 :: map (fun k => snd (leapfrog_levels C u0 k))
               (seq 0 (S (Z.to_nat (Nt - 1)))),
     Np.sum u0 * dx
       :: map (fun k => Np.sum (snd (leapfrog_levels C u0 k)) * dx)
              (seq 0 (S (Z.to_nat (Nt - 1))))).
Proof.
  unfold App.leapfrog, Py.for_range. cbv zeta.
  rewrite leapfrog_loop_u_all, leapfrog_loop_mass. reflexivity.
Qed.

Lemma leapfrog_levels_shape C u0 n :
  length (fst (leapfrog_levels C u0 n)) = length u0
  /\ length (snd (leapfrog_levels C u0 n)) = length u0.
Proof.
  induction n as [|n [IH1 IH2]]; cbn [leapfrog_levels fst snd].
  - split; [reflexivity|]. np_len.
  - split; [exact IH2|]. np_len.
Qed.

Lemma leapfrog_levels_sum C u0 n :
  Np.sum (fst (leapfrog_levels C u0 n)) = Np.sum u0
  /\ Np.sum (snd (leapfrog_levels C u0 n)) = Np.sum u0.
Proof.
  induction n as [|n [IH1 IH2]]; cbn [leapfrog_levels fst snd].
  - split; [reflexivity|]. apply fecs_update_sum.
  - split; [exact IH2|].
    destruct (leapfrog_levels_shape C u0 n) as [L1 L2].
    rewrite sum_sub, sum_scale, sum_sub, !sum_roll by np_len. lra.
Qed.

(** ** Entries of the array operations *)

Lemma roll_nth {A : Type} (a : list A) (k : Z) (i : nat) (d : A) :
  (i < length a)%nat ->
  nth i (Np.roll a k) d
  = nth (Z.to_nat ((Z.of_nat i - k) mod Z.of_nat (length a))) a d.
Proof.
  intros Hi.
  assert (Hn : (0 < Z.of_nat (length a))%Z) by lia.
  pose proof (Z.mod_pos_bound (Z.of_nat i - k) _ Hn) as Hb.
  apply nth_error_nth. rewrite roll_nth_error by exact Hi.
  apply nth_error_nth'. lia.
Qed.

Lemma zip_with_nth {A B C : Type} (f : A -> B -> C) a b i da db dc :
  (i < length a)%nat -> (i < length b)%nat ->
  nth i (Np.zip_with f a b) dc = f (nth i a da) (nth i b db).
Proof.
  revert b i. induction a as [|x a IH]; intros [|y b] [|i] Ha Hb;
    cbn in *; try lia; [reflexivity|].
  apply IH; lia.
Qed.

Lemma sub_nth a b i :
  (i < length a)%nat -> (i < length b)%nat ->
  nth i (a -: b) 0 = nth i a 0 - nth i b 0.
Proof. apply zip_with_nth. Qed.

Lemma add_nth a b i :
  (i < length a)%nat -> (i < length b)%nat ->
  nth i (a +: b) 0 = nth i a 0 + nth i b 0.
Proof. apply zip_with_nth. Qed.

Lemma scale_nth c a i : nth i (c *: a) 0 = c * nth i a 0.
Proof.
  unfold Np.scale. rewrite <- (Rmult_0_r c) at 1. apply map_nth.
Qed.

(** Line 69, entry by entry: the first operand of the difference is the
    value at [i + 1], the second the value at [i - 1], both modulo [Nx]. *)
Lemma fecs_update_nth C u i :
  (i < length u)%nat ->
  nth i (App.fecs_update C u) 0
  = nth i u 0
    - 0.5 * C * (nth ((i + 1) mod length u) u 0
                 - nth ((i + length u - 1) mod length u) u 0).
Proof.
  intros Hi. unfold App.fecs_update.
  rewrite sub_nth, scale_nth, sub_nth, !roll_nth by np_len.
  repeat f_equal.
  - rewrite <- (Nat2Z.id ((i + 1) mod length u)). f_equal.
    rewrite Nat2Z.inj_mod. f_equal. lia.
  - rewrite <- (Nat2Z.id ((i + length u - 1) mod length u)). f_equal.
    rewrite Nat2Z.inj_mod. rewrite <- (Z_mod_plus_full _ 1). f_equal. lia.
Qed.

(** ** Step counts *)

Lemma one_level_lengths (upd : Np.ndarray -> Np.ndarray) u0 dx Nt :
  (0 <= Nt)%Z ->
  let st := Py.for_range Nt (fun st => App.record_step dx st (upd (App.u st)))
                         (App.init_state u0 dx) in
  Z.of_nat (length (App.u_all st)) = (Nt + 1)%Z
  /\ Z.of_nat (length (App.mass st)) = (Nt + 1)%Z.
Proof.
  intros HNt st. subst st. unfold Py.for_range.
  rewrite loop_history, loop_mass_trace, !length_map, length_seq. lia.
Qed.

Lemma fecs_lengths u0 C dx Nt :
  (0 <= Nt)%Z ->
  Z.of_nat (length (fst (App.fecs u0 C dx Nt))) = (Nt + 1)%Z
  /\ Z.of_nat (length (snd (App.fecs u0 C dx Nt))) = (Nt + 1)%Z.
Proof. intros H. exact (one_level_lengths (App.fecs_update C) u0 dx Nt H). Qed.

Lemma upwind_lengths u0 C dx Nt :
  (0 <= Nt)%Z ->
  Z.of_nat (length (fst (App.upwind u0 C dx Nt))) = (Nt + 1)%Z
  /\ Z.of_nat (length (snd (App.upwind u0 C dx Nt))) = (Nt + 1)%Z.
Proof. intros H. exact (one_level_lengths (App.upwind_update C) u0 dx Nt H). Qed.

Lemma lax_wendroff_lengths u0 C dx Nt :
  (0 <= Nt)%Z ->
  Z.of_nat (length (fst (App.lax_wendroff u0 C dx Nt))) = (Nt + 1)%Z
  /\ Z.of_nat (length (snd (App.lax_wendroff u0 C dx Nt))) = (Nt + 1)%Z.
Proof. intros H. exact (one_level_lengths (App.lw_update C) u0 dx Nt H). Qed.

(** Leapfrog starts from two snapshots and loops [Nt - 1] times: it emits
    [max(Nt, 1) + 1] entries, which is [Nt + 1] from [Nt = 1] on. *)
Lemma leapfrog_lengths u0 C dx Nt :
  Z.of_nat (length (fst (App.leapfrog u0 C dx Nt))) = (Z.max Nt 1 + 1)%Z
  /\ Z.of_nat (length (snd (App.leapfrog u0 C dx Nt))) = (Z.max Nt 1 + 1)%Z.
Proof.
  rewrite leapfrog_closed. cbn [fst snd length].
  rewrite !length_map, length_seq. lia.
Qed.

(** C1 (as the code runs at the failing input): with [Nt = 0] the Leapfrog
    block has already stored the initial field and the bootstrap step, so
    its History and MassTrace hold two entries, not [Nt + 1 = 1]. *)
Theorem leapfrog_two_entries_at_zero_steps (u0 : Np.ndarray) (C dx : R) :
  length (fst (App.leapfrog u0 C dx 0)) = 2%nat
  /\ length (snd (App.leapfrog u0 C dx 0)) = 2%nat.
Proof. split; reflexivity. Qed.

(** ** No steps *)

Lemma one_level_zero_steps u0 C dx :
  App.fecs u0 C dx 0 = ([u0], [Np.sum u0 * dx])
  /\ App.upwind u0 C dx 0 = ([u0], [Np.sum u0 * dx])
  /\ App.lax_wendroff u0 C dx 0 = ([u0], [Np.sum u0 * dx]).
Proof. repeat split; reflexivity. Qed.

(** C2 (as the code runs at the failing input): with [Nt = 0] Leapfrog
    still performs its bootstrap update; its History is the initial field
    followed by the bootstrap field, and its MassTrace has their two
    masses. *)
Theorem leapfrog_bootstraps_at_zero_steps (u0 : Np.ndarray) (C dx : R) :
  App.leapfrog u0 C dx 0
  = ([u0; App.fecs_update C u0],
     [Np.sum u0 * dx; Np.sum (App.fecs_update C u0) * dx]).
Proof. reflexivity. Qed.

(** ** The Leapfrog bootstrap *)

(** C7: whatever [Nt] is, entry 0 of the Leapfrog History is the initial
    field and entry 1 is one FECS update (line 69) of it: at every grid
    index [i], [u0[i] - 0.5 C (u0[(i+1) mod Nx] - u0[(i-1) mod Nx])]; from
    [Nt = 1] on it is also entry 1 of the FECS History. *)
Theorem leapfrog_bootstrap_is_fecs_step (u0 : Np.ndarray) (C dx : R) (Nt : Z) :
  nth_error (fst (App.leapfrog u0 C dx Nt)) 0 = Some u0
  /\ nth_error (fst (App.leapfrog u0 C dx Nt)) 1 = Some (App.fecs_update C u0)
  /\ (forall i : nat, (i < length u0)%nat ->
        nth i (App.fecs_update C u0) 0
        = nth i u0 0
          - 0.5 * C * (nth ((i + 1) mod length u0) u0 0
                       - nth ((i + length u0 - 1) mod length u0) u0 0))
  /\ ((1 <= Nt)%Z ->
        nth_error (fst (App.fecs u0 C dx Nt)) 1
        = nth_error (fst (App.leapfrog u0 C dx Nt)) 1).
Proof.
  rewrite leapfrog_closed, fecs_closed. cbn [fst].
  repeat split.
  - intros i Hi. apply fecs_update_nth. exact Hi.
  - intros HNt.
    destruct (Z.to_nat Nt) as [|n] eqn:E; [lia|]. reflexivity.
Qed.

Lemma leapfrog_bootstrap_witness :
  nth_error (fst (App.leapfrog [1; 0; 0] 2 1 1)) 1
  = Some (App.fecs_update 2 [1; 0; 0])
  /\ nth 1 (App.fecs_update 2 [1; 0; 0]) 0
     = nth 1 [1; 0; 0] 0
       - 0.5 * 2 * (nth ((1 + 1) mod length [1; 0; 0]) [1; 0; 0] 0
                    - nth ((1 + length [1; 0; 0] - 1) mod length [1; 0; 0])
                          [1; 0; 0] 0)
  /\ nth_error (fst (App.fecs [1; 0; 0] 2 1 1)) 1
     = nth_error (fst (App.leapfrog [1; 0; 0] 2 1 1)) 1.
Proof.
  destruct (leapfrog_bootstrap_is_fecs_step [1; 0; 0] 2 1 1) as (_ & H1 & H2 & H3).
  split; [exact H1|]. split; [apply H2; cbn; lia | apply H3; lia].
Defined.

(** ** Mass trace against history *)

Lemma iter_sum (upd : Np.ndarray -> Np.ndarray) :
  (forall u, Np.sum (upd u) = Np.sum u) ->
  forall k u0, Np.sum (Nat.iter k upd u0) = Np.sum u0.
Proof.
  intros H k u0. induction k as [|k IH]; [reflexivity|].
  cbn. rewrite H. exact IH.
Qed.

Lemma iter_length (upd : Np.ndarray -> Np.ndarray) :
  (forall u, length (upd u) = length u) ->
  forall k u0, length (Nat.iter k upd u0) = length u0.
Proof.
  intros H k u0. induction k as [|k IH]; [reflexivity|].
  cbn. rewrite H. exact IH.
Qed.

(** Each integrator's mass list is its history mapped through
    [np.sum(u) * dx]. *)
Lemma mass_trace_map name integrate u0 C dx Nt :
  In (name, integrate) all_schemes ->
  snd (integrate u0 C dx Nt)
  = map (fun h => Np.sum h * dx) (fst (integrate u0 C dx Nt)).
Proof.
  intros Hin. cbn in Hin.
  destruct Hin as [E|[E|[E|[E|[]]]]]; inversion E; subst; clear E;
    rewrite ?fecs_closed, ?upwind_closed, ?leapfrog_closed, ?lax_wendroff_closed;
    cbn [fst snd map]; rewrite map_map; reflexivity.
Qed.

(** Every integrator has at least the entries [0..Nt]. *)
Lemma history_covers_steps name integrate u0 C dx Nt k :
  In (name, integrate) all_schemes ->
  (0 <= k <= Nt)%Z ->
  (Z.to_nat k < length (fst (integrate u0 C dx Nt)))%nat.
Proof.
  intros Hin Hk. cbn in Hin.
  destruct Hin as [E|[E|[E|[E|[]]]]]; inversion E; subst; clear E.
  - pose proof (fecs_lengths u0 C dx Nt ltac:(lia)). lia.
  - pose proof (upwind_lengths u0 C dx Nt ltac:(lia)). lia.
  - pose proof (leapfrog_lengths u0 C dx Nt). lia.
  - pose proof (lax_wendroff_lengths u0 C dx Nt ltac:(lia)). lia.
Qed.

(** C8: for each of the four schemes and each step [k] in [0..Nt], the
    History has an entry [k], and the MassTrace entry [k] is [dx] times the
    sum of its values — the entry [k = 0] included. *)
Theorem mass_trace_consistency
  (name : string) (integrate : Np.ndarray -> R -> R -> Z -> list Np.ndarray * list R)
  (u0 : Np.ndarray) (C dx : R) (Nt k : Z) :
  In (name, integrate) all_schemes ->
  (0 <= k <= Nt)%Z ->
  exists h : Np.ndarray,
    nth_error (fst (integrate u0 C dx Nt)) (Z.to_nat k) = Some h
    /\ nth_error (snd (integrate u0 C dx Nt)) (Z.to_nat k) = Some (dx * Np.sum h).
Proof.
  intros Hin Hk.
  pose proof (history_covers_steps name integrate u0 C dx Nt k Hin Hk) as Hlen.
  destruct (nth_error (fst (integrate u0 C dx Nt)) (Z.to_nat k)) as [h|] eqn:E.
  - exists h. split; [reflexivity|].
    rewrite (mass_trace_map name integrate u0 C dx Nt Hin).
    rewrite nth_error_map, E. cbn. f_equal. apply Rmult_comm.
  - apply nth_error_None in E. lia.
Qed.

Lemma mass_trace_consistency_witness :
  exists h : Np.ndarray,
    nth_error (fst (App.leapfrog [1; 2; 3] 1 2 2)) (Z.to_nat 2) = Some h
    /\ nth_error (snd (App.leapfrog [1; 2; 3] 1 2 2)) (Z.to_nat 2)
       = Some (2 * Np.sum h).
Proof.
  apply (mass_trace_consistency "Leapfrog" App.leapfrog [1; 2; 3] 1 2 2 2).
  - cbn. right. right. left. reflexivity.
  - lia.
Defined.

(** ** Conservation of the sum *)

Lemma history_sums name integrate u0 C dx Nt :
  In (name, integrate) all_schemes ->
  Forall (fun h => Np.sum h = Np.sum u0) (fst (integrate u0 C dx Nt)).
Proof.
  intros Hin. cbn in Hin.
  destruct Hin as [E|[E|[E|[E|[]]]]]; inversion E; subst; clear E;
    rewrite ?fecs_closed, ?upwind_closed, ?leapfrog_closed, ?lax_wendroff_closed;
    cbn [fst]; try constructor; try reflexivity;
    apply Forall_forall; intros h Hh; apply in_map_iff in Hh;
    destruct Hh as (k & <- & _).
  - apply iter_sum, fecs_update_sum.
  - apply iter_sum, upwind_update_sum.
  - apply leapfrog_levels_sum.
  - apply iter_sum, lw_update_sum.
Qed.

(** C10: in exact arithmetic every snapshot of every scheme has the sum of
    the initial field, and every mass entry is [dx] times that sum; the
    entries [0..Nt] exist, so this holds at each step [k] in [0..Nt]. *)
Theorem mass_is_conserved
  (name : string) (integrate : Np.ndarray -> R -> R -> Z -> list Np.ndarray * list R)
  (u0 : Np.ndarray) (C dx : R) (Nt : Z) :
  In (name, integrate) all_schemes ->
  Forall (fun h => Np.sum h = Np.sum u0) (fst (integrate u0 C dx Nt))
  /\ Forall (fun m => m = dx * Np.sum u0) (snd (integrate u0 C dx Nt))
  /\ (forall k : Z, (0 <= k <= Nt)%Z ->
        exists h : Np.ndarray,
          nth_error (fst (integrate u0 C dx Nt)) (Z.to_nat k) = Some h
          /\ Np.sum h = Np.sum u0
          /\ nth_error (snd (integrate u0 C dx Nt)) (Z.to_nat k)
             = Some (dx * Np.sum u0)).
Proof.
  intros Hin.
  pose proof (history_sums name integrate u0 C dx Nt Hin) as Hs.
  split; [exact Hs|]. split.
  - rewrite (mass_trace_map name integrate u0 C dx Nt Hin).
    apply Forall_forall. intros m Hm. apply in_map_iff in Hm.
    destruct Hm as (h & <- & Hh).
    rewrite Forall_forall in Hs. rewrite (Hs h Hh). apply Rmult_comm.
  - intros k Hk.
    pose proof (history_covers_steps name integrate u0 C dx Nt k Hin Hk) as Hlen.
    destruct (nth_error (fst (integrate u0 C dx Nt)) (Z.to_nat k)) as [h|] eqn:E.
    + assert (Hsum : Np.sum h = Np.sum u0).
      { rewrite Forall_forall in Hs. apply Hs. eapply nth_error_In. exact E. }
      exists h. repeat split; [exact Hsum|].
      rewrite (mass_trace_map name integrate u0 C dx Nt Hin).
      rewrite nth_error_map, E. cbn. rewrite Hsum. f_equal. apply Rmult_comm.
    + apply nth_error_None in E. lia.
Qed.

Lemma mass_is_conserved_witness :
  Forall (fun h => Np.sum h = Np.sum [0; 1; 1; 0])
         (fst (App.lax_wendroff [0; 1; 1; 0] 0.5 0.25 3))
  /\ exists h : Np.ndarray,
       nth_error (fst (App.lax_wendroff [0; 1; 1; 0] 0.5 0.25 3)) (Z.to_nat 3)
       = Some h
       /\ Np.sum h = Np.sum [0; 1; 1; 0]
       /\ nth_error (snd (App.lax_wendroff [0; 1; 1; 0] 0.5 0.25 3)) (Z.to_nat 3)
          = Some (0.25 * Np.sum [0; 1; 1; 0]).
Proof.
  destruct (mass_is_conserved "Lax-Wendroff" App.lax_wendroff [0; 1; 1; 0] 0.5 0.25 3)
    as (H1 & _ & H3).
  - cbn. right. right. right. left. reflexivity.
  - split; [exact H1 | apply H3; lia].
Defined.

(** ** The circular shift *)

Lemma roll_three {A : Type} (x y z : A) :
  Np.roll [x; y; z] 1 = [z; x; y] /\ Np.roll [x; y; z] (-1) = [y; z; x].
Proof. split; reflexivity. Qed.

Lemma roll_right_neighbours {A : Type} (a : list A) :
  map Some (Np.roll a (-1)) = right_neighbours a.
Proof.
  apply nth_error_ext. intros i. unfold right_neighbours.
  rewrite !nth_error_map, nth_error_seq.
  destruct (Nat.ltb_spec i (length a)) as [Hi|Hi].
  - rewrite roll_nth_error by exact Hi. cbn.
    assert (Hn : (0 < Z.of_nat (length a))%Z) by lia.
    pose proof (Z.mod_pos_bound (Z.of_nat i - -1) _ Hn) as Hb.
    pose proof (Nat.mod_upper_bound (i + 1) (length a) ltac:(lia)) as Hb'.
    replace (Z.to_nat ((Z.of_nat i - -1) mod Z.of_nat (length a)))
      with ((i + 1) mod length a)%nat.
    + destruct (nth_error a ((i + 1) mod length a)) eqn:E; [reflexivity|].
      apply nth_error_None in E. lia.
    + rewrite <- (Nat2Z.id ((i + 1) mod length a)). f_equal.
      rewrite Nat2Z.inj_mod. f_equal. lia.
  - rewrite roll_nth_error_None by exact Hi. reflexivity.
Qed.

Lemma roll_left_neighbours {A : Type} (a : list A) :
  map Some (Np.roll a 1) = left_neighbours a.
Proof.
  apply nth_error_ext. intros i. unfold left_neighbours.
  rewrite !nth_error_map, nth_error_seq.
  destruct (Nat.ltb_spec i (length a)) as [Hi|Hi].
  - rewrite roll_nth_error by exact Hi. cbn.
    assert (Hn : (0 < Z.of_nat (length a))%Z) by lia.
    pose proof (Nat.mod_upper_bound (i + length a - 1) (length a) ltac:(lia)) as Hb'.
    replace (Z.to_nat ((Z.of_nat i - 1) mod Z.of_nat (length a)))
      with ((i + length a - 1) mod length a)%nat.
    + destruct (nth_error a ((i + length a - 1) mod length a)) eqn:E; [reflexivity|].
      apply nth_error_None in E. lia.
    + rewrite <- (Nat2Z.id ((i + length a - 1) mod length a)). f_equal.
      rewrite Nat2Z.inj_mod.
      rewrite <- (Z_mod_plus_full (Z.of_nat i - 1) 1). f_equal. lia.
  - rewrite roll_nth_error_None by exact Hi. reflexivity.
Qed.

(** C4, the claim as stated fails: on [1, 2, 3] the shift by [+1] gives
    [3, 1, 2], which holds the left neighbours, not the right ones
    ([2, 3, 1]); and the FECS update of line 69 differs from the formula
    read with [R = shift(+1)], [L = shift(-1)]. *)
Lemma shift_plus_one_is_not_the_right_neighbour :
  map Some (Np.roll [1; 2; 3] 1) <> right_neighbours [1; 2; 3]
  /\ App.fecs_update 2 [1; 0; 0] <> fecs_update_as_specified 2 [1; 0; 0].
Proof.
  split.
  - intros H. cbv [right_neighbours length seq map Nat.modulo Nat.divmod
                   Nat.add fst snd Nat.sub nth_error] in H.
    rewrite (proj1 (roll_three 1 2 3)) in H. cbn [map] in H.
    injection H as H _ _. lra.
  - unfold App.fecs_update, fecs_update_as_specified.
    rewrite (proj1 (roll_three 1 0 0)), (proj2 (roll_three 1 0 0)).
    cbn. intros H. injection H as H _. lra.
Qed.

(** C4 (amended): [np.roll(a, k)[i] = a[(i - k) mod Nx]] for every array
    of length [Nx >= 1], index [i] and offset [k]; the shift by [-1] holds
    the right neighbours ([a[(i + 1) mod Nx]], the last index wrapping to the
    first) and the shift by [+1] the left neighbours ([a[(i - 1) mod Nx]], the
    first index wrapping to the last), and these are the first and second
    operand of the schemes' centred difference; for [Nx = 1] every shift is
    the identity. *)
Theorem roll_indexing (a : Np.ndarray) (k : Z) (i : nat) (C : R) :
  (1 <= length a)%nat ->
  (i < length a)%nat ->
  nth_error (Np.roll a k) i
  = nth_error a (Z.to_nat ((Z.of_nat i - k) mod Z.of_nat (length a)))
  /\ map Some (Np.roll a (-1)) = right_neighbours a
  /\ map Some (Np.roll a 1) = left_neighbours a
  /\ nth i (App.fecs_update C a) 0
     = nth i a 0
       - 0.5 * C * (nth ((i + 1) mod length a) a 0
                    - nth ((i + length a - 1) mod length a) a 0)
  /\ (length a = 1%nat -> Np.roll a k = a).
Proof.
  intros Hn Hi. repeat split.
  - apply roll_nth_error. exact Hi.
  - apply roll_right_neighbours.
  - apply roll_left_neighbours.
  - apply fecs_update_nth. exact Hi.
  - apply roll_singleton.
Qed.

Lemma roll_indexing_witness :
  (nth_error (Np.roll [1; 2; 3] 1) 0
   = nth_error [1; 2; 3]
       (Z.to_nat ((Z.of_nat 0 - 1) mod Z.of_nat (length [1; 2; 3])))
   /\ map Some (Np.roll [1; 2; 3] (-1)) = right_neighbours [1; 2; 3])
  /\ Np.roll [5] 7 = [5].
Proof.
  split.
  - destruct (roll_indexing [1; 2; 3] 1 0 1) as (H1 & H2 & _).
    + cbn. lia.
    + cbn. lia.
    + split; [exact H1 | exact H2].
  - destruct (roll_indexing [5] 7 0 1) as (_ & _ & _ & _ & H).
    + cbn. lia.
    + cbn. lia.
    + apply H. reflexivity.
Defined.

(** ** Upwind at unit Courant number *)

Lemma sub_scale_one_sub (a b : Np.ndarray) :
  length a = length b -> a -: 1 *: (a -: b) = b.
Proof.
  unfold Np.sub, Np.scale. revert b.
  induction a as [|x a IH]; intros [|y b] H; cbn in *; try discriminate;
    [reflexivity|].
  rewrite IH by congruence. f_equal. lra.
Qed.

Lemma upwind_update_one u : App.upwind_update 1 u = Np.roll u 1.
Proof. unfold App.upwind_update. apply sub_scale_one_sub. np_len. Qed.

Lemma iter_upwind_update_one k u0 :
  Nat.iter k (App.upwind_update 1) u0 = Np.roll u0 (Z.of_nat k).
Proof.
  induction k as [|k IH]; [symmetry; apply roll_0|].
  change (Nat.iter (S k) (App.upwind_update 1) u0)
    with (App.upwind_update 1 (Nat.iter k (App.upwind_update 1) u0)).
  rewrite IH, upwind_update_one, roll_roll. f_equal. lia.
Qed.

Lemma final_field_closed (f : nat -> Np.ndarray) n :
  final_field (map f (seq 0 (S n))) = f n.
Proof. unfold final_field. rewrite seq_S, map_app. cbn. apply last_last. Qed.

(** C6, the claim as stated fails: from [1, 0, 0] one Upwind step with
    [C = 1] gives [0, 1, 0] (the pulse has moved to the right), which is
    neither [shift(u, -1)], the [L(u)] of the specification, nor the field
    shifted left by one position (both are [0, 0, 1]). *)
Lemma upwind_unit_courant_does_not_shift_left :
  App.upwind_update 1 [1; 0; 0] <> Np.roll [1; 0; 0] (-1)
  /\ final_field (fst (App.upwind [1; 0; 0] 1 1 1)) <> shifted_left [1; 0; 0] 1.
Proof.
  rewrite upwind_closed. cbn [fst].
  rewrite final_field_closed.
  change (Nat.iter (Z.to_nat 1) (App.upwind_update 1) [1; 0; 0])
    with (App.upwind_update 1 [1; 0; 0]).
  rewrite upwind_update_one, (proj1 (roll_three 1 0 0)), (proj2 (roll_three 1 0 0)).
  split; intros H.
  - injection H as _ H. lra.
  - cbv [shifted_left length Nat.modulo Nat.divmod fst snd Nat.sub skipn firstn app] in H.
    injection H as _ H. lra.
Qed.

(** C6 (amended): for Upwind with [C = 1], in exact arithmetic, one update
    is the shift by [+1] (each cell takes the value of its left neighbour),
    and after [Nt] steps the final field is the initial field shifted by
    [+Nt], i.e. moved [Nt] positions to the right:
    [final[i] = u0[(i - Nt) mod Nx]]. *)
Theorem upwind_unit_courant_shifts_right
  (u0 : Np.ndarray) (dx : R) (Nt : Z) :
  (0 <= Nt)%Z ->
  App.upwind_update 1 u0 = Np.roll u0 1
  /\ final_field (fst (App.upwind u0 1 dx Nt)) = Np.roll u0 Nt
  /\ (forall i : nat, (i < length u0)%nat ->
        nth i (final_field (fst (App.upwind u0 1 dx Nt))) 0
        = nth (Z.to_nat ((Z.of_nat i - Nt) mod Z.of_nat (length u0))) u0 0).
Proof.
  intros HNt.
  assert (Hfin : final_field (fst (App.upwind u0 1 dx Nt)) = Np.roll u0 Nt).
  { rewrite upwind_closed. cbn [fst].
    rewrite final_field_closed, iter_upwind_update_one. f_equal. lia. }
  split; [apply upwind_update_one|]. split; [exact Hfin|].
  intros i Hi. rewrite Hfin. apply roll_nth. exact Hi.
Qed.

Lemma upwind_unit_courant_witness :
  final_field (fst (App.upwind [1; 0; 0] 1 1 2)) = Np.roll [1; 0; 0] 2
  /\ nth 2 (final_field (fst (App.upwind [1; 0; 0] 1 1 2))) 0
     = nth (Z.to_nat ((Z.of_nat 2 - 2) mod Z.of_nat (length [1; 0; 0])))
           [1; 0; 0] 0.
Proof.
  destruct (upwind_unit_courant_shifts_right [1; 0; 0] 1 2) as (_ & H & Hi).
  - lia.
  - split; [exact H | apply Hi; cbn; lia].
Defined.

(** The shift of [upwind_update_one] is a fact of exact arithmetic.  In
    binary64 a cell holding 1 next to a cell holding [2^-60] is updated to
    0: the small value is lost in [x - l]. *)
Lemma upwind_cell_binary64_rounds :
  Binary64.upwind_cell Binary64.one Binary64.one Binary64.tiny = Binary64.zero
  /\ PrimFloat.eqb
       (Binary64.upwind_cell Binary64.one Binary64.one Binary64.tiny)
       Binary64.tiny = false.
Proof. split; reflexivity. Qed.

(** ** The grid and the Square Pulse *)

Ltac decide_Rlt :=
  repeat match goal with
  | |- context [Rlt_dec ?a ?b] =>
      let H := fresh "H" in
      destruct (Rlt_dec a b) as [H|H];
      [ try (exfalso; revert H; unfold Rabs; destruct (Rcase_abs _); lra)
      | try (exfalso; apply H; unfold Rabs; destruct (Rcase_abs _); lra) ]
  end.

(** For [Nx >= 1] the grid is the list of the points [i * (L / Nx)]. *)
Lemma grid_is_grid_points L Nx :
  (1 <= Nx)%nat -> App.grid L (Z.of_nat Nx) = Py.Ok (grid_points L Nx).
Proof.
  intros H. unfold App.grid, Np.linspace.
  destruct (Z.ltb_spec (Z.of_nat Nx + 1) 0); [lia|].
  replace (Z.to_nat (Z.of_nat Nx + 1)) with (S Nx) by lia.
  destruct Nx as [|m]; [lia|].
  cbn [Py.bind]. rewrite removelast_last. unfold grid_points.
  apply f_equal. apply map_ext. intros i. unfold Rdiv. ring.
Qed.

Lemma grid_unit_four : App.grid 1 4 = Py.Ok [0; 0.25; 0.5; 0.75].
Proof.
  unfold App.grid, Np.linspace.
  change (4 + 1 <? 0)%Z with false. cbv iota.
  change (Z.to_nat (4 + 1)) with 5%nat. cbv iota beta zeta.
  cbn [seq map app Py.bind removelast INR].
  repeat f_equal; lra.
Qed.

Lemma square_pulse_unit_four :
  App.get_initial_condition [0; 0.25; 0.5; 0.75] "Square Pulse" 0.3 0.5 1
  = [0; 1; 1; 1].
Proof.
  unfold App.get_initial_condition.
  change ("Square Pulse" =? "Gaussian Bell")%string with false.
  change ("Square Pulse" =? "Square Pulse")%string with true. cbv iota.
  unfold Np.where_scalars, Np.lt_scalar, Np.abs, Np.sub_scalar.
  cbn [map]. decide_Rlt. reflexivity.
Qed.

(** C3, the claim as stated fails: the grid point [0.75] lies at distance
    [0.25 < 0.3] from the centre, so the last value is 1, not 0. *)
Lemma square_pulse_is_not_0110 :
  App.grid 1 4 = Py.Ok [0; 0.25; 0.5; 0.75]
  /\ App.get_initial_condition [0; 0.25; 0.5; 0.75] "Square Pulse" 0.3 0.5 1
     <> [0; 1; 1; 0].
Proof.
  split; [exact grid_unit_four|].
  rewrite square_pulse_unit_four. intros H. injection H as H. lra.
Qed.

(** C3 (amended): with [L = 1], [Nx = 4] the grid is [0, 0.25, 0.5, 0.75],
    and the Square Pulse with [x0 = 0.5], [sigma = 0.3] on it is
    [0, 1, 1, 1]: only the point [0] is at distance [>= sigma]. *)
Theorem square_pulse_on_unit_grid :
  App.grid 1 4 = Py.Ok [0; 0.25; 0.5; 0.75]
  /\ App.get_initial_condition [0; 0.25; 0.5; 0.75] "Square Pulse" 0.3 0.5 1
     = [0; 1; 1; 1].
Proof. split; [exact grid_unit_four | exact square_pulse_unit_four]. Qed.

(** ** Configurations the run accepts and rejects *)

Lemma truediv_zero a : Py.truediv a 0 = Py.Raise Py.ZeroDivisionError.
Proof. unfold Py.truediv. destruct (Req_dec_T 0 0); [reflexivity|congruence]. Qed.

Lemma truediv_nonzero a b : b <> 0 -> Py.truediv a b = Py.Ok (a / b).
Proof. intros H. unfold Py.truediv. destruct (Req_dec_T b 0); [contradiction|reflexivity]. Qed.

Lemma round_IZR z : Py.round (IZR z) = z.
Proof.
  unfold Py.round. rewrite ZfloorZ.
  destruct (Rlt_dec (IZR z - IZR z) (1 / 2)) as [_|H]; [reflexivity|].
  exfalso. apply H. lra.
Qed.

Lemma derive_raises cfg :
  App.Nx cfg = 0%Z \/ App.v cfg = 0 \/ App.C cfg = 0 \/ App.L cfg = 0 ->
  App.derive cfg = Py.Raise Py.ZeroDivisionError.
Proof.
  intros H. unfold App.derive.
  destruct (Z.eq_dec (App.Nx cfg) 0) as [E|E].
  { rewrite E. cbn. now rewrite truediv_zero. }
  assert (HNx : IZR (App.Nx cfg) <> 0) by (now apply not_0_IZR).
  rewrite truediv_nonzero by exact HNx. cbn [Py.bind].
  destruct (Req_dec_T (App.v cfg) 0) as [Ev|Ev].
  { rewrite Ev. now rewrite truediv_zero. }
  rewrite truediv_nonzero by exact Ev. cbn [Py.bind].
  assert (Hz : App.C cfg * (App.L cfg / IZR (App.Nx cfg)) / App.v cfg = 0).
  { destruct H as [H|[H|[H|H]]]; try contradiction; rewrite H;
      unfold Rdiv; ring. }
  rewrite Hz. now rewrite truediv_zero.
Qed.

Lemma derive_ok cfg :
  App.Nx cfg <> 0%Z -> App.v cfg <> 0 -> App.C cfg <> 0 -> App.L cfg <> 0 ->
  App.derive cfg
  = Py.Ok (App.L cfg / IZR (App.Nx cfg),
           App.C cfg * (App.L cfg / IZR (App.Nx cfg)) / App.v cfg,
           Py.round (App.T_max cfg
                     / (App.C cfg * (App.L cfg / IZR (App.Nx cfg)) / App.v cfg))).
Proof.
  intros HNx Hv HC HL. unfold App.derive.
  assert (HNx' : IZR (App.Nx cfg) <> 0) by (now apply not_0_IZR).
  rewrite truediv_nonzero by exact HNx'. cbn [Py.bind].
  rewrite truediv_nonzero by exact Hv. cbn [Py.bind].
  rewrite truediv_nonzero; [reflexivity|].
  unfold Rdiv. repeat apply Rmult_integral_contrapositive_currified;
    try assumption; now apply Rinv_neq_0_compat.
Qed.

Lemma grid_raises L Nx : (Nx < -1)%Z -> App.grid L Nx = Py.Raise Py.ValueError.
Proof.
  intros H. unfold App.grid, Np.linspace.
  destruct (Z.ltb_spec (Nx + 1) 0); [reflexivity|lia].
Qed.

Lemma grid_ok L Nx : (-1 <= Nx)%Z -> exists x, App.grid L Nx = Py.Ok x.
Proof.
  intros H. unfold App.grid, Np.linspace.
  destruct (Z.ltb_spec (Nx + 1) 0); [lia|].
  destruct (Z.to_nat (Nx + 1)) as [|[|m]]; cbn [Py.bind]; eexists; reflexivity.
Qed.

(** The run with [T_max = -1] and every other parameter in range: [Nt]
    comes out as [-4], every enabled integrator runs and stores its initial
    snapshot (Leapfrog its bootstrap step too). *)
Lemma negative_time_run :
  App.T_max negative_time_config <= 0
  /\ App.run negative_time_config
     = Py.Ok {| App.out_x := [0; 0.25; 0.5; 0.75];
                App.out_u0 := [0; 1; 1; 1];
                App.solvers :=
                  [("FECS", [[0; 1; 1; 1]]);
                   ("Upwind", [[0; 1; 1; 1]]);
                   ("Leapfrog", [[0; 1; 1; 1]; App.fecs_update 1 [0; 1; 1; 1]]);
                   ("Lax-Wendroff", [[0; 1; 1; 1]])];
                App.integrals :=
                  [("FECS", [Np.sum [0; 1; 1; 1] * (1 / 4)]);
                   ("Upwind", [Np.sum [0; 1; 1; 1] * (1 / 4)]);
                   ("Leapfrog", [Np.sum [0; 1; 1; 1] * (1 / 4);
                                 Np.sum (App.fecs_update 1 [0; 1; 1; 1]) * (1 / 4)]);
                   ("Lax-Wendroff", [Np.sum [0; 1; 1; 1] * (1 / 4)])] |}.
Proof.
  split; [cbn; lra|].
  unfold App.run.
  rewrite derive_ok by (cbn; first [lia | lra]).
  cbn [Py.bind negative_time_config App.L App.Nx App.C App.v App.T_max
       App.wave_shape App.sigma App.x0].
  replace (-1 / (1 * (1 / 4) / 1)) with (IZR (-4)) by lra.
  rewrite round_IZR, grid_unit_four. cbn [Py.bind].
  rewrite square_pulse_unit_four.
  reflexivity.
Qed.

(** The outcomes of a run in the exact model, where nothing overflows or
    underflows: [ZeroDivisionError] when [Nx], [v], [C] or [L] is zero,
    [ValueError] from [linspace] when [Nx <= -2], a result otherwise. *)
Lemma run_outcomes_exact (cfg : App.Config) :
  (App.Nx cfg = 0%Z \/ App.v cfg = 0 \/ App.C cfg = 0 \/ App.L cfg = 0 ->
   App.run cfg = Py.Raise Py.ZeroDivisionError)
  /\ (App.Nx cfg <> 0%Z -> App.v cfg <> 0 -> App.C cfg <> 0 -> App.L cfg <> 0 ->
      (App.Nx cfg < -1)%Z ->
      App.run cfg = Py.Raise Py.ValueError)
  /\ (App.Nx cfg <> 0%Z -> App.v cfg <> 0 -> App.C cfg <> 0 -> App.L cfg <> 0 ->
      (-1 <= App.Nx cfg)%Z ->
      exists out : App.Output,
        App.run cfg = Py.Ok out
        /\ map fst (App.solvers out) = map fst (App.enabled cfg)
        /\ map fst (App.integrals out) = map fst (App.enabled cfg)).
Proof.
  repeat split.
  - intros H. unfold App.run. rewrite (derive_raises cfg H). reflexivity.
  - intros HNx Hv HC HL Hneg. unfold App.run.
    rewrite (derive_ok cfg HNx Hv HC HL). cbn [Py.bind].
    rewrite (grid_raises _ _ Hneg). reflexivity.
  - intros HNx Hv HC HL Hge. unfold App.run.
    rewrite (derive_ok cfg HNx Hv HC HL). cbn [Py.bind].
    destruct (grid_ok (App.L cfg) (App.Nx cfg) Hge) as [x Hx].
    rewrite Hx. cbn [Py.bind].
    eexists. split; [reflexivity|].
    cbn [App.solvers App.integrals]. rewrite !map_map.
    split; apply map_ext; intros [name f]; reflexivity.
Qed.

(** ** A slider setting with no time step *)

Lemma round_below_half x : 0 <= x < 1 / 2 -> Py.round x = 0%Z.
Proof.
  intros Hx. unfold Py.round.
  rewrite (Zfloor_eq 0 x) by lra.
  destruct (Rlt_dec (x - 0) (1 / 2)) as [_|H]; [reflexivity|].
  exfalso. apply H. lra.
Qed.

(** With [L = 100], [Nx = 50], [v = 0.1], [C = 2], [T_max = 0.1], all
    within the slider ranges, [dt] is 40 and [Nt] is 0. *)
Lemma largest_step_has_zero_steps :
  exists dx dt : R,
    App.derive largest_step_config = Py.Ok (dx, dt, 0%Z) /\ dx = 2 /\ dt = 40.
Proof.
  exists (100 / 50), (2 * (100 / 50) / 0.1).
  split; [|split; lra].
  rewrite derive_ok by (cbn; first [lia | lra]).
  cbn [largest_step_config App.L App.Nx App.C App.v App.T_max].
  rewrite round_below_half by lra. reflexivity.
Qed.

(** On that setting the run stores one snapshot for FECS, Upwind and
    Lax-Wendroff and two for Leapfrog, although the time axis of the
    heat maps has [Nt + 1 = 1] point. *)
Lemma largest_step_history_lengths :
  exists out : App.Output,
    App.run largest_step_config = Py.Ok out
    /\ map (fun entry => (fst entry, length (snd entry))) (App.solvers out)
       = [("FECS", 1%nat); ("Upwind", 1%nat);
          ("Leapfrog", 2%nat); ("Lax-Wendroff", 1%nat)].
Proof.
  destruct largest_step_has_zero_steps as (dx & dt & Hd & _ & _).
  unfold App.run. rewrite Hd. cbn [Py.bind].
  change (App.Nx largest_step_config) with (Z.of_nat 50).
  rewrite grid_is_grid_points by lia. cbn [Py.bind].
  eexists. split; reflexivity.
Qed.

(** ** Growth of the FECS scheme *)

Lemma max_abs_nonneg a : 0 <= max_abs a.
Proof.
  unfold max_abs. induction a as [|x a IH]; cbn; [lra|].
  eapply Rle_trans; [exact IH | apply Rmax_r].
Qed.

Lemma max_abs_ge a x : In x a -> Rabs x <= max_abs a.
Proof.
  unfold max_abs. induction a as [|y a IH]; cbn; [tauto|].
  intros [->|H]; [apply Rmax_l|].
  eapply Rle_trans; [apply IH, H | apply Rmax_r].
Qed.

Lemma max_abs_le a M :
  0 <= M -> (forall x, In x a -> Rabs x <= M) -> max_abs a <= M.
Proof.
  intros HM. unfold max_abs. induction a as [|y a IH]; cbn; intros H; [exact HM|].
  apply Rmax_lub; [apply H; now left|]. apply IH. intros x Hx. apply H. now right.
Qed.

Lemma zip_with_In {A B C : Type} (f : A -> B -> C) a b z :
  In z (Np.zip_with f a b) -> exists x y, In x a /\ In y b /\ z = f x y.
Proof.
  revert b. induction a as [|x a IH]; intros [|y b]; cbn; try tauto.
  intros [<-|H].
  - exists x, y. tauto.
  - destruct (IH b H) as (x' & y' & Hx & Hy & ->). exists x', y'. tauto.
Qed.

Lemma Rabs_bounds x M : Rabs x <= M -> - M <= x <= M.
Proof. unfold Rabs. destruct (Rcase_abs x); lra. Qed.

(** One FECS update multiplies max |u| by at most [1 + C]. *)
Lemma fecs_update_max_abs C u :
  0 <= C -> max_abs (App.fecs_update C u) <= (1 + C) * max_abs u.
Proof.
  intros HC. pose proof (max_abs_nonneg u) as HM.
  apply max_abs_le; [nra|].
  intros z Hz. unfold App.fecs_update in Hz.
  apply zip_with_In in Hz. destruct Hz as (x & w & Hx & Hw & ->).
  apply in_map_iff in Hw. destruct Hw as (d & <- & Hd).
  apply zip_with_In in Hd. destruct Hd as (r & l & Hr & Hl & ->).
  apply roll_In in Hr. apply roll_In in Hl.
  pose proof (max_abs_ge u x Hx) as Bx.
  pose proof (max_abs_ge u r Hr) as Br.
  pose proof (max_abs_ge u l Hl) as Bl.
  set (M := max_abs u) in *. clearbody M.
  apply Rabs_bounds in Bx, Br, Bl.
  assert (Hr1 : C * r <= C * M) by (apply Rmult_le_compat_l; lra).
  assert (Hr2 : C * - M <= C * r) by (apply Rmult_le_compat_l; lra).
  assert (Hl1 : C * l <= C * M) by (apply Rmult_le_compat_l; lra).
  assert (Hl2 : C * - M <= C * l) by (apply Rmult_le_compat_l; lra).
  apply Rabs_le. lra.
Qed.

Lemma iter_fecs_max_abs C u n :
  0 <= C ->
  max_abs (Nat.iter n (App.fecs_update C) u) <= (1 + C) ^ n * max_abs u.
Proof.
  intros HC. induction n as [|n IH].
  { change (Nat.iter 0 (App.fecs_update C) u) with u. rewrite pow_O. lra. }
  change (Nat.iter (S n) (App.fecs_update C) u)
    with (App.fecs_update C (Nat.iter n (App.fecs_update C) u)).
  eapply Rle_trans; [apply fecs_update_max_abs, HC|].
  cbn [pow]. rewrite Rmult_assoc.
  apply Rmult_le_compat_l; [lra | exact IH].
Qed.

Lemma fecs_final u0 C dx Nt :
  final_field (fst (App.fecs u0 C dx Nt))
  = Nat.iter (Z.to_nat Nt) (App.fecs_update C) u0.
Proof. rewrite fecs_closed. cbn [fst]. apply final_field_closed. Qed.

Lemma small_courant_power : (1 + 0.001) ^ 500 < 10.
Proof.
  assert (H : (1 + 0.001) ^ 500 * IZR 1000 ^ 500 < 10 * IZR 1000 ^ 500).
  { rewrite <- Rpow_mult_distr.
    replace ((1 + 0.001) * IZR 1000) with (IZR 1001) by lra.
    rewrite !pow_IZR, <- mult_IZR. apply IZR_lt. vm_compute. reflexivity. }
  apply Rmult_lt_reg_r in H; [exact H|].
  apply pow_lt. lra.
Qed.

Lemma zip_with_skipn {A B C : Type} (f : A -> B -> C) m a b :
  skipn m (Np.zip_with f a b) = Np.zip_with f (skipn m a) (skipn m b).
Proof.
  revert a b. induction m as [|m IH]; intros a b; [reflexivity|].
  destruct a as [|x a]; [reflexivity|].
  destruct b as [|y b]; [cbn; now destruct (skipn m a)|].
  cbn. apply IH.
Qed.

Lemma zip_with_firstn {A B C : Type} (f : A -> B -> C) m a b :
  firstn m (Np.zip_with f a b) = Np.zip_with f (firstn m a) (firstn m b).
Proof.
  revert a b. induction m as [|m IH]; intros a b; [reflexivity|].
  destruct a as [|x a]; [reflexivity|].
  destruct b as [|y b]; [reflexivity|].
  cbn. f_equal. apply IH.
Qed.

Lemma zip_with_app {A B C : Type} (f : A -> B -> C) a1 a2 b1 b2 :
  length a1 = length b1 ->
  Np.zip_with f (a1 ++ a2) (b1 ++ b2)
  = Np.zip_with f a1 b1 ++ Np.zip_with f a2 b2.
Proof.
  revert b1. induction a1 as [|x a1 IH]; intros [|y b1] H; cbn in *;
    try discriminate; [reflexivity|].
  f_equal. apply IH. congruence.
Qed.

Lemma roll_zip_with {A B C : Type} (f : A -> B -> C) a b k :
  length a = length b ->
  Np.roll (Np.zip_with f a b) k = Np.zip_with f (Np.roll a k) (Np.roll b k).
Proof.
  intros H. unfold Np.roll.
  rewrite zip_with_length, <- H, Nat.min_id.
  match goal with |- context [Nat.eqb (Z.to_nat ?z) 0] =>
    destruct (Nat.eqb (Z.to_nat z) 0) end; [reflexivity|].
  rewrite zip_with_skipn, zip_with_firstn.
  symmetry. apply zip_with_app.
  rewrite !length_skipn. lia.
Qed.

Lemma sum_mul_comm a b :
  Np.sum (Np.zip_with Rmult a b) = Np.sum (Np.zip_with Rmult b a).
Proof.
  unfold Np.sum. revert b.
  induction a as [|x a IH]; intros [|y b]; cbn; try reflexivity.
  rewrite IH. lra.
Qed.

(** On a periodic grid the products with the right and with the left
    neighbour have the same sum. *)
Lemma sum_neighbour_products u :
  Np.sum (Np.zip_with Rmult u (Np.roll u (-1)))
  = Np.sum (Np.zip_with Rmult u (Np.roll u 1)).
Proof.
  rewrite <- (sum_roll (Np.zip_with Rmult u (Np.roll u (-1))) 1).
  rewrite roll_zip_with by np_len.
  rewrite roll_roll. change (-1 + 1)%Z with 0%Z. rewrite roll_0.
  apply sum_mul_comm.
Qed.

Lemma sum_sq_nonneg a : 0 <= sum_sq a.
Proof.
  unfold sum_sq, Np.sum, Np.square.
  induction a as [|x a IH]; cbn [map fold_right]; [lra|].
  pose proof (pow2_ge_0 x). lra.
Qed.

Lemma sum_sq_centred c a r l :
  length a = length r -> length a = length l ->
  sum_sq (a -: c *: (r -: l))
  = sum_sq a
    - 2 * c * (Np.sum (Np.zip_with Rmult a r) - Np.sum (Np.zip_with Rmult a l))
    + c ^ 2 * sum_sq (r -: l).
Proof.
  unfold sum_sq, Np.sum, Np.square, Np.sub, Np.scale. revert r l.
  induction a as [|x a IH]; intros [|y r] [|z l] Hr Hl;
    cbn [length] in *; try discriminate;
    cbn [Np.zip_with map fold_right]; [lra|].
  rewrite IH by congruence. ring.
Qed.

(** The energy identity of the FECS update. *)
Lemma fecs_update_sum_sq C u :
  sum_sq (App.fecs_update C u)
  = sum_sq u + (0.5 * C) ^ 2 * sum_sq (Np.roll u (-1) -: Np.roll u 1).
Proof.
  unfold App.fecs_update.
  rewrite sum_sq_centred by np_len.
  rewrite sum_neighbour_products. lra.
Qed.

Lemma iter_fecs_sum_sq C u n :
  sum_sq u <= sum_sq (Nat.iter n (App.fecs_update C) u).
Proof.
  induction n as [|n IH]; [apply Rle_refl|].
  change (Nat.iter (S n) (App.fecs_update C) u)
    with (App.fecs_update C (Nat.iter n (App.fecs_update C) u)).
  rewrite fecs_update_sum_sq.
  pose proof (sum_sq_nonneg (Np.roll (Nat.iter n (App.fecs_update C) u) (-1)
                             -: Np.roll (Nat.iter n (App.fecs_update C) u) 1)).
  pose proof (pow2_ge_0 (0.5 * C)). nra.
Qed.

Lemma bell_values x sig center len :
  App.get_initial_condition x "Gaussian Bell" sig center len
  = map (fun xi => exp (-0.5 * ((xi - center) / sig) ^ 2)) x.
Proof.
  unfold App.get_initial_condition.
  change ("Gaussian Bell" =? "Gaussian Bell")%string with true. cbv iota.
  unfold Np.exp, Np.scale, Np.square, Np.div_scalar, Np.sub_scalar.
  rewrite !map_map. reflexivity.
Qed.

Lemma bell_max_abs_pos x sig center len :
  x <> [] ->
  0 < max_abs (App.get_initial_condition x "Gaussian Bell" sig center len).
Proof.
  intros Hx. rewrite bell_values.
  destruct x as [|x0 x]; [congruence|]. cbn [map].
  eapply Rlt_le_trans; [|apply max_abs_ge; left; reflexivity].
  apply Rabs_pos_lt. apply Rgt_not_eq. apply exp_pos.
Qed.

Lemma default_bell_max_abs_pos : 0 < max_abs default_bell.
Proof.
  apply bell_max_abs_pos. unfold grid_points.
  change (seq 0 100) with (0%nat :: seq 1 99). discriminate.
Qed.

Lemma fecs_small_courant_bound u0 C dx :
  0 <= C -> C <= 0.001 -> 0 < max_abs u0 ->
  max_abs (final_field (fst (App.fecs u0 C dx 500))) < 10 * max_abs u0.
Proof.
  intros HC HC' Hpos. rewrite fecs_final.
  eapply Rle_lt_trans; [apply iter_fecs_max_abs, HC|].
  apply Rmult_lt_compat_r; [exact Hpos|].
  eapply Rle_lt_trans; [|exact small_courant_power].
  change (Z.to_nat 500) with 500%nat.
  apply pow_incr. lra.
Qed.

(** C9, the claim as stated fails: with [C = 0.001 > 0], [Nx = 100],
    [Nt = 500] and the default Bell, max |u| of the final field is below
    ten times that of the initial field. *)
Lemma fecs_small_courant_stays_below_tenfold :
  App.grid 1 100 = Py.Ok (grid_points 1 100)
  /\ 0 < 0.001
  /\ ~ (10 * max_abs default_bell
        <= max_abs (final_field (fst (App.fecs default_bell 0.001 (1 / 100) 500)))).
Proof.
  split; [apply (grid_is_grid_points 1 100); lia|].
  split; [lra|].
  apply Rlt_not_le.
  apply fecs_small_courant_bound; [lra | lra | exact default_bell_max_abs_pos].
Qed.

(** C9 (amended): FECS never damps, but how fast it grows depends on [C].
    In exact arithmetic one update adds
    [(C/2)^2 * sum (u[i+1] - u[i-1])^2] to the sum of squares, so that sum
    never decreases, while max |u| grows by at most the factor [1 + C] per
    step ([C >= 0]): after [Nt] steps
    [max |u_Nt| <= (1 + C)^Nt * max |u_0|].  For [Nt = 500] and
    [C <= 0.001] the final max |u| is strictly below ten times the initial
    one on any field that is not zero, the Bell included. *)
Theorem fecs_growth_depends_on_courant
  (u0 : Np.ndarray) (C dx : R) (Nt : Z) :
  0 <= C ->
  (0 <= Nt)%Z ->
  sum_sq (App.fecs_update C u0)
  = sum_sq u0 + (0.5 * C) ^ 2 * sum_sq (Np.roll u0 (-1) -: Np.roll u0 1)
  /\ sum_sq u0 <= sum_sq (final_field (fst (App.fecs u0 C dx Nt)))
  /\ max_abs (final_field (fst (App.fecs u0 C dx Nt)))
     <= (1 + C) ^ Z.to_nat Nt * max_abs u0
  /\ (C <= 0.001 -> Nt = 500%Z -> 0 < max_abs u0 ->
      max_abs (final_field (fst (App.fecs u0 C dx Nt))) < 10 * max_abs u0).
Proof.
  intros HC HNt. repeat split.
  - apply fecs_update_sum_sq.
  - rewrite fecs_final. apply iter_fecs_sum_sq.
  - rewrite fecs_final. apply iter_fecs_max_abs, HC.
  - intros HC' -> Hpos. apply fecs_small_courant_bound; assumption.
Qed.

Lemma fecs_growth_witness :
  max_abs (final_field (fst (App.fecs default_bell 0.001 (1 / 100) 500)))
  < 10 * max_abs default_bell.
Proof.
  destruct (fecs_growth_depends_on_courant default_bell 0.001 (1 / 100) 500)
    as (_ & _ & _ & H).
  - lra.
  - lia.
  - apply H; [lra | reflexivity | exact default_bell_max_abs_pos].
Defined.

(** * Further properties *)

(** ** The grid *)




(** ** The shapes *)

Lemma zip_with_map_map {A B C D : Type}
      (f : B -> C -> D) (g : A -> B) (h : A -> C) (l : list A) :
  Np.zip_with f (map g l) (map h l) = map (fun a => f (g a) (h a)) l.
Proof. induction l as [|a l IH]; cbn; [reflexivity|]. now rewrite IH. Qed.

(** The generator works point by point. *)
Lemma initial_condition_pointwise x shape sig center len :
  App.get_initial_condition x shape sig center len
  = map (profile shape sig center) x.
Proof.
  unfold App.get_initial_condition, profile.
  destruct (String.eqb shape "Gaussian Bell").
  { unfold Np.exp, Np.scale, Np.square, Np.div_scalar, Np.sub_scalar.
    rewrite !map_map. reflexivity. }
  destruct (String.eqb shape "Square Pulse").
  { unfold Np.where_scalars, Np.lt_scalar, Np.abs, Np.sub_scalar.
    rewrite !map_map. apply map_ext. intros xi.
    destruct (Rlt_dec (Rabs (xi - center)) sig); reflexivity. }
  destruct (String.eqb shape "Triangle Wave").
  { unfold Np.where_, Np.lt_scalar, Np.abs, Np.sub_scalar, Np.rsub_scalar,
      Np.div_scalar.
    rewrite !map_map, zip_with_map_map. apply map_ext. intros xi.
    destruct (Rlt_dec (Rabs (xi - center)) sig); reflexivity. }
  destruct (String.eqb shape "Cosine Hat").
  { cbv zeta.
    unfold Np.where_, Np.lt_scalar, Np.abs, Np.sub_scalar, Np.square, Np.cos,
      Np.div_scalar, Np.scale.
    rewrite !map_map, zip_with_map_map. apply map_ext. intros xi.
    destruct (Rlt_dec (Rabs (xi - center)) sig); reflexivity. }
  unfold Np.zeros_like. reflexivity.
Qed.

Lemma profile_bounds shape sig center xi :
  0 < sig -> 0 <= profile shape sig center xi <= 1.
Proof.
  intros Hs. unfold profile.
  destruct (String.eqb shape "Gaussian Bell").
  { split; [left; apply exp_pos|].
    rewrite <- exp_0. 
    destruct (Req_dec (-0.5 * ((xi - center) / sig) ^ 2) 0) as [E|E].
    - rewrite E. apply Rle_refl.
    - left. apply exp_increasing.
      pose proof (pow2_ge_0 ((xi - center) / sig)). lra. }
  destruct (String.eqb shape "Square Pulse").
  { destruct (Rlt_dec _ _); lra. }
  destruct (String.eqb shape "Triangle Wave").
  { destruct (Rlt_dec _ _) as [H|H]; [|lra].
    pose proof (Rabs_pos (xi - center)) as Hp.
    assert (0 <= Rabs (xi - center) / sig < 1).
    { split; [apply Rmult_le_pos; [exact Hp | left; now apply Rinv_0_lt_compat]|].
      apply (Rmult_lt_reg_r sig); [exact Hs|]. field_simplify; lra. }
    lra. }
  destruct (String.eqb shape "Cosine Hat").
  { destruct (Rlt_dec _ _) as [H|H]; [|lra].
    split; [apply pow2_ge_0|].
    pose proof (COS_bound (PI * Rabs (xi - center) / (2 * sig))) as [B1 B2].
    nra. }
  lra.
Qed.

Lemma initial_condition_length x shape sig center len :
  length (App.get_initial_condition x shape sig center len) = length x.
Proof. rewrite initial_condition_pointwise. apply length_map. Qed.

Lemma initial_condition_range x shape sig center len :
  0 < sig ->
  Forall (fun y => 0 <= y <= 1)
         (App.get_initial_condition x shape sig center len).
Proof.
  intros Hs. rewrite initial_condition_pointwise.
  apply Forall_forall. intros y Hy.
  apply in_map_iff in Hy. destruct Hy as (xi & <- & _).
  apply profile_bounds, Hs.
Qed.

(** X2: whatever the shape string, the initial field has one value per
    grid point, and for [sigma > 0] every value lies in [[0, 1]]. *)
Theorem initial_condition_shape_and_range
  (x : Np.ndarray) (shape : string) (sig center len : R) :
  length (App.get_initial_condition x shape sig center len) = length x
  /\ (0 < sig ->
      Forall (fun y => 0 <= y <= 1)
             (App.get_initial_condition x shape sig center len)).
Proof.
  split; [apply initial_condition_length|].
  intros Hs. apply initial_condition_range, Hs.
Qed.

Lemma initial_condition_range_witness :
  Forall (fun y => 0 <= y <= 1)
         (App.get_initial_condition [0; 0.25; 0.5; 0.75] "Cosine Hat" 0.3 0.5 1).
Proof.
  apply (initial_condition_shape_and_range
           [0; 0.25; 0.5; 0.75] "Cosine Hat" 0.3 0.5 1).
  lra.
Defined.

Lemma profile_peak shape sig center :
  0 < sig ->
  In shape ["Gaussian Bell"; "Square Pulse"; "Triangle Wave"; "Cosine Hat"] ->
  profile shape sig center center = 1.
Proof.
  intros Hs Hin. unfold profile.
  replace (center - center) with 0 by ring. rewrite Rabs_R0.
  cbn in Hin. destruct Hin as [<-|[<-|[<-|[<-|[]]]]]; cbn [String.eqb Ascii.eqb Bool.eqb].
  - replace (-0.5 * (0 / sig) ^ 2) with 0 by (unfold Rdiv; ring). apply exp_0.
  - destruct (Rlt_dec 0 sig); [reflexivity|contradiction].
  - destruct (Rlt_dec 0 sig); [|contradiction]. unfold Rdiv. ring.
  - destruct (Rlt_dec 0 sig); [|contradiction].
    replace (PI * 0 / (2 * sig)) with 0 by (unfold Rdiv; ring).
    rewrite cos_0. ring.
Qed.

Lemma profile_outside shape sig center xi :
  shape <> "Gaussian Bell" -> sig <= Rabs (xi - center) ->
  profile shape sig center xi = 0.
Proof.
  intros Hb Hout. unfold profile.
  destruct (String.eqb_spec shape "Gaussian Bell"); [contradiction|].
  repeat match goal with
  | |- context [String.eqb ?a ?b] => destruct (String.eqb a b)
  | |- context [Rlt_dec ?a ?b] => destruct (Rlt_dec a b); [lra|]
  end; reflexivity.
Qed.

(** X3: for [sigma > 0], each of the four named shapes takes the value 1 at
    a grid value that coincides with the centre; every shape other than the
    Bell is 0 at the grid values at distance [>= sigma] from the centre, and
    an unknown shape name gives 0 everywhere.  ([xi] is the value the array
    [x] holds at index [i].) *)
Theorem initial_condition_peak_and_support
  (x : Np.ndarray) (shape : string) (sig center len : R) (i : nat) (xi : R) :
  0 < sig ->
  nth_error x i = Some xi ->
  (In shape ["Gaussian Bell"; "Square Pulse"; "Triangle Wave"; "Cosine Hat"] ->
   xi = center ->
   nth_error (App.get_initial_condition x shape sig center len) i = Some 1)
  /\ (shape <> "Gaussian Bell" -> sig <= Rabs (xi - center) ->
      nth_error (App.get_initial_condition x shape sig center len) i = Some 0)
  /\ (~ In shape ["Gaussian Bell"; "Square Pulse"; "Triangle Wave"; "Cosine Hat"] ->
      nth_error (App.get_initial_condition x shape sig center len) i = Some 0).
Proof.
  intros Hs Hx. rewrite initial_condition_pointwise, nth_error_map, Hx.
  cbn [option_map]. repeat split.
  - intros Hin ->. f_equal. apply profile_peak; assumption.
  - intros Hb Hout. f_equal. apply profile_outside; assumption.
  - intros Hnot. f_equal. unfold profile.
    repeat match goal with
    | |- context [String.eqb ?a ?b] =>
        destruct (String.eqb_spec a b);
        [exfalso; apply Hnot; subst; cbn; tauto|]
    end.
    reflexivity.
Qed.

Lemma initial_condition_peak_witness :
  nth_error (App.get_initial_condition [0; 0.25; 0.5; 0.75] "Triangle Wave"
                                       0.3 0.5 1) 2 = Some 1
  /\ nth_error (App.get_initial_condition [0; 0.25; 0.5; 0.75] "Triangle Wave"
                                          0.3 0.5 1) 0 = Some 0.
Proof.
  split.
  - destruct (initial_condition_peak_and_support
                [0; 0.25; 0.5; 0.75] "Triangle Wave" 0.3 0.5 1 2 0.5)
      as (H & _).
    + lra.
    + reflexivity.
    + apply H; [cbn; tauto | reflexivity].
  - destruct (initial_condition_peak_and_support
                [0; 0.25; 0.5; 0.75] "Triangle Wave" 0.3 0.5 1 0 0)
      as (_ & H & _).
    + lra.
    + reflexivity.
    + apply H; [discriminate|].
      unfold Rabs. destruct (Rcase_abs (0 - 0.5)); lra.
Defined.

(** ** The derived parameters *)


Lemma round_nonneg x : 0 <= x -> (0 <= Py.round x)%Z.
Proof.
  intros Hx. unfold Py.round.
  assert (Hf : (0 <= Zfloor x)%Z) by (apply Zfloor_lub; exact Hx).
  repeat match goal with
  | |- context [if ?c then _ else _] => destruct c
  end; lia.
Qed.

Lemma derive_inversion cfg dx dt Nt :
  App.derive cfg = Py.Ok (dx, dt, Nt) ->
  App.Nx cfg <> 0%Z /\ App.v cfg <> 0 /\ dt <> 0
  /\ dx = App.L cfg / IZR (App.Nx cfg)
  /\ dt = App.C cfg * dx / App.v cfg
  /\ Nt = Py.round (App.T_max cfg / dt).
Proof.
  unfold App.derive, Py.truediv.
  destruct (Req_dec_T (IZR (App.Nx cfg)) 0) as [E|E]; [discriminate|].
  cbn [Py.bind].
  destruct (Req_dec_T (App.v cfg) 0) as [Ev|Ev]; [discriminate|].
  cbn [Py.bind].
  destruct (Req_dec_T _ 0) as [Ed|Ed]; [discriminate|].
  cbn [Py.bind]. intros H. injection H as <- <- <-.
  repeat split; try assumption; try reflexivity.
  intros HN. apply E. rewrite HN. reflexivity.
Qed.


Lemma derive_positive cfg dx dt Nt :
  App.derive cfg = Py.Ok (dx, dt, Nt) ->
  0 < App.L cfg -> 0 < App.v cfg -> 0 < App.C cfg -> 0 <= App.T_max cfg ->
  (0 < App.Nx cfg)%Z ->
  0 < dx /\ 0 < dt /\ (0 <= Nt)%Z.
Proof.
  intros H HL Hv HC HT HNx. apply derive_inversion in H.
  destruct H as (_ & _ & _ & Edx & Edt & ENt).
  assert (Hdx : 0 < dx).
  { rewrite Edx. apply Rdiv_lt_0_compat; [assumption|]. now apply IZR_lt. }
  assert (Hdt : 0 < dt).
  { rewrite Edt. apply Rdiv_lt_0_compat; [|assumption].
    apply Rmult_lt_0_compat; assumption. }
  repeat split; try assumption.
  rewrite ENt. apply round_nonneg.
  apply Rmult_le_pos; [assumption|]. left. now apply Rinv_0_lt_compat.
Qed.

(** X4: a valid configuration gives a valid step count: when the
    derivation of lines 24-26 succeeds with [L], [v], [C] and [Nx]
    positive and [T_max >= 0], then [dx > 0], [dt > 0] and [Nt >= 0]. *)
Theorem valid_parameters_give_a_step_count
  (cfg : App.Config) (dx dt : R) (Nt : Z) :
  App.derive cfg = Py.Ok (dx, dt, Nt) ->
  0 < App.L cfg -> 0 < App.v cfg -> 0 < App.C cfg -> 0 <= App.T_max cfg ->
  (0 < App.Nx cfg)%Z ->
  0 < dx /\ 0 < dt /\ (0 <= Nt)%Z.
Proof.
  intros H HL Hv HC HT HNx.
  destruct (derive_positive cfg dx dt Nt H HL Hv HC HT HNx) as (H1 & H2 & H3).
  split; [exact H1|]. split; [exact H2 | exact H3].
Qed.

Lemma valid_parameters_witness :
  exists (dx dt : R) (Nt : Z),
    App.derive largest_step_config = Py.Ok (dx, dt, Nt)
    /\ 0 < dx /\ 0 < dt /\ (0 <= Nt)%Z.
Proof.
  destruct largest_step_has_zero_steps as (dx & dt & Hd & _ & _).
  exists dx, dt, 0%Z. split; [exact Hd|].
  apply (valid_parameters_give_a_step_count largest_step_config dx dt 0 Hd);
    cbn; first [lra | lia].
Defined.


(** ** The structure of the histories *)

Lemma nth_error_map_seq {A : Type} (f : nat -> A) n k :
  (k < n)%nat -> nth_error (map f (seq 0 n)) k = Some (f k).
Proof.
  intros Hk. rewrite nth_error_map, nth_error_seq.
  destruct (Nat.ltb_spec k n); [reflexivity|lia].
Qed.

Lemma one_level_closed integrate upd u0 C dx Nt :
  In (integrate, upd) one_level_schemes ->
  integrate u0 C dx Nt
  = (map (fun k => Nat.iter k (upd C) u0) (seq 0 (S (Z.to_nat Nt))),
     map (fun k => Np.sum (Nat.iter k (upd C) u0) * dx)
         (seq 0 (S (Z.to_nat Nt)))).
Proof.
  intros Hin. cbn in Hin.
  destruct Hin as [E|[E|[E|[]]]]; inversion E; subst; clear E.
  - apply fecs_closed.
  - apply upwind_closed.
  - apply lax_wendroff_closed.
Qed.

Lemma one_level_update_length integrate upd C u :
  In (integrate, upd) one_level_schemes -> length (upd C u) = length u.
Proof.
  intros Hin. cbn in Hin.
  destruct Hin as [E|[E|[E|[]]]]; inversion E; subst; clear E.
  - apply fecs_update_length.
  - apply upwind_update_length.
  - apply lw_update_length.
Qed.

Lemma leapfrog_history_level u0 C dx Nt k :
  (k <= S (Z.to_nat (Nt - 1)))%nat ->
  nth_error (fst (App.leapfrog u0 C dx Nt)) k
  = Some (fst (leapfrog_levels C u0 k)).
Proof.
  intros Hk. rewrite leapfrog_closed. cbn [fst].
  destruct k as [|k]; [reflexivity|].
  cbn [nth_error]. rewrite nth_error_map_seq by lia. reflexivity.
Qed.

Lemma history_head name integrate u0 C dx Nt :
  In (name, integrate) all_schemes ->
  nth_error (fst (integrate u0 C dx Nt)) 0 = Some u0.
Proof.
  intros Hin. cbn in Hin.
  destruct Hin as [E|[E|[E|[E|[]]]]]; inversion E; subst; clear E;
    rewrite ?fecs_closed, ?upwind_closed, ?leapfrog_closed, ?lax_wendroff_closed;
    reflexivity.
Qed.

Lemma history_rows name integrate u0 C dx Nt :
  In (name, integrate) all_schemes ->
  Forall (fun h => length h = length u0) (fst (integrate u0 C dx Nt)).
Proof.
  intros Hin. cbn in Hin.
  destruct Hin as [E|[E|[E|[E|[]]]]]; inversion E; subst; clear E;
    rewrite ?fecs_closed, ?upwind_closed, ?leapfrog_closed, ?lax_wendroff_closed;
    cbn [fst]; try (constructor; [reflexivity|]);
    apply Forall_forall; intros h Hh; apply in_map_iff in Hh;
    destruct Hh as (k & <- & _).
  - apply iter_length, fecs_update_length.
  - apply iter_length, upwind_update_length.
  - apply leapfrog_levels_shape.
  - apply iter_length, lw_update_length.
Qed.

(** X6: each history starts with the initial field, whatever [Nt] is (a
    negative [Nt] included), and all its snapshots have the length of the
    initial field, so the history is a rectangular matrix. *)
Theorem history_starts_at_u0_and_is_rectangular
  (name : string) (integrate : Np.ndarray -> R -> R -> Z -> list Np.ndarray * list R)
  (u0 : Np.ndarray) (C dx : R) (Nt : Z) :
  In (name, integrate) all_schemes ->
  nth_error (fst (integrate u0 C dx Nt)) 0 = Some u0
  /\ Forall (fun h => length h = length u0) (fst (integrate u0 C dx Nt)).
Proof.
  intros Hin.
  split; [apply (history_head name) | apply (history_rows name)]; exact Hin.
Qed.

Lemma history_rectangular_witness :
  nth_error (fst (App.leapfrog [1; 2; 3] 0.5 1 (-3))) 0 = Some [1; 2; 3]
  /\ Forall (fun h => length h = length [1; 2; 3])
            (fst (App.leapfrog [1; 2; 3] 0.5 1 (-3))).
Proof.
  apply (history_starts_at_u0_and_is_rectangular "Leapfrog").
  cbn. tauto.
Defined.

(** X7: in a one-level scheme (FECS, Upwind, Lax-Wendroff) every snapshot
    after the first is the scheme's update of the snapshot before it: for
    [0 <= k < Nt], [History[k+1] = update(History[k])]. *)
Theorem one_level_history_recurrence
  (integrate : Np.ndarray -> R -> R -> Z -> list Np.ndarray * list R)
  (upd : R -> Np.ndarray -> Np.ndarray)
  (u0 : Np.ndarray) (C dx : R) (Nt k : Z) :
  In (integrate, upd) one_level_schemes ->
  (0 <= k < Nt)%Z ->
  exists h : Np.ndarray,
    nth_error (fst (integrate u0 C dx Nt)) (Z.to_nat k) = Some h
    /\ nth_error (fst (integrate u0 C dx Nt)) (Z.to_nat (k + 1))
       = Some (upd C h).
Proof.
  intros Hin Hk. rewrite (one_level_closed _ _ _ _ _ _ Hin). cbn [fst].
  exists (Nat.iter (Z.to_nat k) (upd C) u0).
  rewrite !nth_error_map_seq by lia.
  split; [reflexivity|].
  replace (Z.to_nat (k + 1)) with (S (Z.to_nat k)) by lia. reflexivity.
Qed.

Lemma one_level_recurrence_witness :
  exists h : Np.ndarray,
    nth_error (fst (App.lax_wendroff [1; 0; 0] 0.5 1 3)) (Z.to_nat 1) = Some h
    /\ nth_error (fst (App.lax_wendroff [1; 0; 0] 0.5 1 3)) (Z.to_nat (1 + 1))
       = Some (App.lw_update 0.5 h).
Proof.
  apply (one_level_history_recurrence App.lax_wendroff App.lw_update).
  - cbn. tauto.
  - lia.
Defined.

(** X8: in the Leapfrog history every snapshot from the third on is built
    from the two before it: for [0 <= k] and [k + 2 <= Nt],
    [History[k+2] = History[k] - C (roll(History[k+1], -1)
    - roll(History[k+1], 1))]. *)
Theorem leapfrog_history_recurrence
  (u0 : Np.ndarray) (C dx : R) (Nt k : Z) :
  (0 <= k)%Z -> (k + 2 <= Nt)%Z ->
  exists p c : Np.ndarray,
    nth_error (fst (App.leapfrog u0 C dx Nt)) (Z.to_nat k) = Some p
    /\ nth_error (fst (App.leapfrog u0 C dx Nt)) (Z.to_nat (k + 1)) = Some c
    /\ nth_error (fst (App.leapfrog u0 C dx Nt)) (Z.to_nat (k + 2))
       = Some (p -: C *: (Np.roll c (-1) -: Np.roll c 1)).
Proof.
  intros Hk HNt.
  exists (fst (leapfrog_levels C u0 (Z.to_nat k))),
         (snd (leapfrog_levels C u0 (Z.to_nat k))).
  rewrite !leapfrog_history_level by lia.
  replace (Z.to_nat (k + 2)) with (S (S (Z.to_nat k))) by lia.
  replace (Z.to_nat (k + 1)) with (S (Z.to_nat k)) by lia.
  repeat split; reflexivity.
Qed.

Lemma leapfrog_recurrence_witness :
  exists p c : Np.ndarray,
    nth_error (fst (App.leapfrog [1; 0; 0] 0.5 1 3)) (Z.to_nat 1) = Some p
    /\ nth_error (fst (App.leapfrog [1; 0; 0] 0.5 1 3)) (Z.to_nat (1 + 1)) = Some c
    /\ nth_error (fst (App.leapfrog [1; 0; 0] 0.5 1 3)) (Z.to_nat (1 + 2))
       = Some (p -: 0.5 *: (Np.roll c (-1) -: Np.roll c 1)).
Proof.
  apply (leapfrog_history_recurrence [1; 0; 0] 0.5 1 3 1); lia.
Defined.

(** X9: [dx] enters the mass trace only: the history of every scheme is the
    same for any two values of [dx], and the mass trace is the mass trace
    for [dx = 1] multiplied by [dx]. *)
Theorem history_independent_of_dx
  (name : string) (integrate : Np.ndarray -> R -> R -> Z -> list Np.ndarray * list R)
  (u0 : Np.ndarray) (C dx dx' : R) (Nt : Z) :
  In (name, integrate) all_schemes ->
  fst (integrate u0 C dx Nt) = fst (integrate u0 C dx' Nt)
  /\ snd (integrate u0 C dx Nt)
     = map (fun m => m * dx) (snd (integrate u0 C 1 Nt)).
Proof.
  intros Hin.
  rewrite !(mass_trace_map name integrate u0 C _ Nt Hin).
  assert (E : forall d d', fst (integrate u0 C d Nt) = fst (integrate u0 C d' Nt)).
  { intros d d'. cbn in Hin.
    destruct Hin as [H|[H|[H|[H|[]]]]]; inversion H; subst; clear H;
      rewrite ?fecs_closed, ?upwind_closed, ?leapfrog_closed,
        ?lax_wendroff_closed; reflexivity. }
  split; [apply E|].
  rewrite map_map, (E dx 1). apply map_ext. intros h. ring.
Qed.

Lemma history_independent_of_dx_witness :
  fst (App.upwind [1; 0; 0] 0.5 0.25 2) = fst (App.upwind [1; 0; 0] 0.5 7 2).
Proof.
  apply (history_independent_of_dx "Upwind" App.upwind [1; 0; 0] 0.5 0.25 7 2).
  cbn. tauto.
Defined.

(** ** The updates, entry by entry *)

Lemma roll_nth_right (u : Np.ndarray) i :
  (i < length u)%nat ->
  nth i (Np.roll u (-1)) 0 = nth ((i + 1) mod length u) u 0.
Proof.
  intros Hi. rewrite roll_nth by exact Hi. f_equal.
  rewrite <- (Nat2Z.id ((i + 1) mod length u)). f_equal.
  rewrite Nat2Z.inj_mod. f_equal. lia.
Qed.

Lemma roll_nth_left (u : Np.ndarray) i :
  (i < length u)%nat ->
  nth i (Np.roll u 1) 0 = nth ((i + length u - 1) mod length u) u 0.
Proof.
  intros Hi. rewrite roll_nth by exact Hi. f_equal.
  rewrite <- (Nat2Z.id ((i + length u - 1) mod length u)). f_equal.
  rewrite Nat2Z.inj_mod.
  rewrite <- (Z_mod_plus_full (Z.of_nat i - 1) 1). f_equal. lia.
Qed.

Lemma upwind_update_nth C u i :
  (i < length u)%nat ->
  nth i (App.upwind_update C u) 0
  = nth i u 0 - C * (nth i u 0 - nth ((i + length u - 1) mod length u) u 0).
Proof.
  intros Hi. unfold App.upwind_update.
  rewrite sub_nth, scale_nth, sub_nth, roll_nth_left by np_len.
  reflexivity.
Qed.

Lemma lw_update_nth C u i :
  (i < length u)%nat ->
  nth i (App.lw_update C u) 0
  = nth i u 0
    - 0.5 * C * (nth ((i + 1) mod length u) u 0
                 - nth ((i + length u - 1) mod length u) u 0)
    + 0.5 * C ^ 2 * (nth ((i + 1) mod length u) u 0 - 2 * nth i u 0
                     + nth ((i + length u - 1) mod length u) u 0).
Proof.
  intros Hi. unfold App.lw_update. cbv zeta.
  rewrite add_nth, sub_nth, !scale_nth, add_nth, !sub_nth, scale_nth,
    roll_nth_left, roll_nth_right by np_len.
  reflexivity.
Qed.

Lemma leapfrog_step_nth C p c i :
  length p = length c -> (i < length c)%nat ->
  nth i (p -: C *: (Np.roll c (-1) -: Np.roll c 1)) 0
  = nth i p 0
    - C * (nth ((i + 1) mod length c) c 0
           - nth ((i + length c - 1) mod length c) c 0).
Proof.
  intros Hl Hi.
  rewrite sub_nth, scale_nth, sub_nth, roll_nth_left, roll_nth_right by np_len.
  reflexivity.
Qed.

(** ** Fields that every scheme leaves alone *)

Lemma updates_at_zero_courant u :
  App.fecs_update 0 u = u /\ App.upwind_update 0 u = u /\ App.lw_update 0 u = u.
Proof.
  repeat split; apply (nth_ext _ _ 0 0);
    rewrite ?fecs_update_length, ?upwind_update_length, ?lw_update_length;
    try reflexivity; intros i Hi;
    rewrite ?fecs_update_nth, ?upwind_update_nth, ?lw_update_nth by exact Hi;
    lra.
Qed.

Lemma iter_fixed {A : Type} (f : A -> A) (x : A) n : f x = x -> Nat.iter n f x = x.
Proof.
  intros H. induction n as [|n IH]; [reflexivity|].
  change (Nat.iter (S n) f x) with (f (Nat.iter n f x)). now rewrite IH.
Qed.

Lemma leapfrog_levels_fixed C u0 n :
  u0 -: (0.5 * C) *: (Np.roll u0 (-1) -: Np.roll u0 1) = u0 ->
  u0 -: C *: (Np.roll u0 (-1) -: Np.roll u0 1) = u0 ->
  leapfrog_levels C u0 n = (u0, u0).
Proof.
  intros H1 H2. induction n as [|n IH]; cbn [leapfrog_levels].
  - now rewrite H1.
  - rewrite IH. cbn [fst snd]. now rewrite H2.
Qed.

(** A field that one update of each kind leaves unchanged is repeated
    through every history. *)
Lemma fixed_field_history name integrate u0 C dx Nt :
  In (name, integrate) all_schemes ->
  App.fecs_update C u0 = u0 -> App.upwind_update C u0 = u0 ->
  App.lw_update C u0 = u0 ->
  u0 -: C *: (Np.roll u0 (-1) -: Np.roll u0 1) = u0 ->
  Forall (fun h => h = u0) (fst (integrate u0 C dx Nt)).
Proof.
  intros Hin Hf Hu Hl Hlf. cbn in Hin.
  destruct Hin as [E|[E|[E|[E|[]]]]]; inversion E; subst; clear E;
    rewrite ?fecs_closed, ?upwind_closed, ?leapfrog_closed, ?lax_wendroff_closed;
    cbn [fst]; try (constructor; [reflexivity|]);
    apply Forall_forall; intros h Hh; apply in_map_iff in Hh;
    destruct Hh as (k & <- & _).
  - apply iter_fixed, Hf.
  - apply iter_fixed, Hu.
  - rewrite leapfrog_levels_fixed; [reflexivity | exact Hf | exact Hlf].
  - apply iter_fixed, Hl.
Qed.

(** X10: with [C = 0] no scheme moves the field: every snapshot of every
    history is the initial field. *)
Theorem zero_courant_keeps_the_field
  (name : string) (integrate : Np.ndarray -> R -> R -> Z -> list Np.ndarray * list R)
  (u0 : Np.ndarray) (dx : R) (Nt : Z) :
  In (name, integrate) all_schemes ->
  Forall (fun h => h = u0) (fst (integrate u0 0 dx Nt)).
Proof.
  intros Hin. destruct (updates_at_zero_courant u0) as (Hf & Hu & Hl).
  apply (fixed_field_history name); try assumption.
  apply (nth_ext _ _ 0 0); [np_len|].
  intros i Hi. autorewrite with np_len in Hi.
  rewrite leapfrog_step_nth by (reflexivity || exact Hi). lra.
Qed.

Lemma zero_courant_witness :
  Forall (fun h => h = [1; 2; 3]) (fst (App.leapfrog [1; 2; 3] 0 1 4)).
Proof.
  apply (zero_courant_keeps_the_field "Leapfrog"). cbn. tauto.
Defined.

(** X11: a uniform field is a steady state of every scheme for every [C]:
    if all cells of the initial field hold the same value, every snapshot
    equals the initial field. *)
Theorem uniform_field_is_steady
  (name : string) (integrate : Np.ndarray -> R -> R -> Z -> list Np.ndarray * list R)
  (c : R) (n : nat) (C dx : R) (Nt : Z) :
  In (name, integrate) all_schemes ->
  Forall (fun h => h = repeat c n) (fst (integrate (repeat c n) C dx Nt)).
Proof.
  intros Hin.
  assert (Hpt : forall i, (i < n)%nat -> nth i (repeat c n) 0 = c)
    by (intros i Hi; now apply nth_repeat_lt).
  assert (Hm : forall i, (i < n)%nat ->
             ((i + 1) mod n < n /\ (i + n - 1) mod n < n)%nat)
    by (intros i Hi; split; apply Nat.mod_upper_bound; lia).
  apply (fixed_field_history name); try assumption;
    apply (nth_ext _ _ 0 0);
    rewrite ?fecs_update_length, ?upwind_update_length, ?lw_update_length;
    try reflexivity; try np_len;
    intros i Hi; autorewrite with np_len in Hi;
    rewrite ?fecs_update_nth, ?upwind_update_nth, ?lw_update_nth,
      ?leapfrog_step_nth by (reflexivity || exact Hi);
    rewrite repeat_length in *;
    destruct (Hm i Hi) as [H1 H2]; rewrite !Hpt by assumption; lra.
Qed.

Lemma uniform_field_witness :
  Forall (fun h => h = repeat 3 5)
         (fst (App.lax_wendroff (repeat 3 5) 0.8 0.2 4)).
Proof.
  apply (uniform_field_is_steady "Lax-Wendroff"). cbn. tauto.
Defined.

(** ** Lax-Wendroff at unit Courant number, and the way round the domain *)

Lemma lw_update_one u : App.lw_update 1 u = Np.roll u 1.
Proof.
  apply (nth_ext _ _ 0 0); [rewrite lw_update_length, roll_length; reflexivity|].
  intros i Hi. rewrite lw_update_length in Hi.
  rewrite lw_update_nth, roll_nth_left by exact Hi. lra.
Qed.

Lemma lw_update_minus_one u : App.lw_update (-1) u = Np.roll u (-1).
Proof.
  apply (nth_ext _ _ 0 0); [rewrite lw_update_length, roll_length; reflexivity|].
  intros i Hi. rewrite lw_update_length in Hi.
  rewrite lw_update_nth, roll_nth_right by exact Hi. lra.
Qed.

Lemma iter_roll (upd : Np.ndarray -> Np.ndarray) (s : Z) :
  (forall u, upd u = Np.roll u s) ->
  forall k u0, Nat.iter k upd u0 = Np.roll u0 (Z.of_nat k * s).
Proof.
  intros H k u0. induction k as [|k IH]; [symmetry; apply roll_0|].
  change (Nat.iter (S k) upd u0) with (upd (Nat.iter k upd u0)).
  rewrite IH, H, roll_roll. f_equal. lia.
Qed.

(** X12: Lax-Wendroff is exact at [C = 1] and [C = -1]: one update is the
    circular shift by [+1], respectively [-1]; at [C = 1] its whole history
    is that of Upwind at [C = 1], and after [Nt >= 0] steps the field is the
    initial field shifted by [+Nt] ([-Nt] at [C = -1]). *)
Theorem lax_wendroff_unit_courant_shifts
  (u0 : Np.ndarray) (dx : R) (Nt : Z) :
  (0 <= Nt)%Z ->
  App.lw_update 1 u0 = Np.roll u0 1
  /\ App.lw_update (-1) u0 = Np.roll u0 (-1)
  /\ fst (App.lax_wendroff u0 1 dx Nt) = fst (App.upwind u0 1 dx Nt)
  /\ final_field (fst (App.lax_wendroff u0 1 dx Nt)) = Np.roll u0 Nt
  /\ final_field (fst (App.lax_wendroff u0 (-1) dx Nt)) = Np.roll u0 (- Nt).
Proof.
  intros HNt.
  split; [apply lw_update_one|]. split; [apply lw_update_minus_one|].
  rewrite !lax_wendroff_closed, upwind_closed. cbn [fst].
  rewrite !final_field_closed.
  rewrite (iter_roll _ 1 lw_update_one), (iter_roll _ (-1) lw_update_minus_one).
  repeat split.
  - apply map_ext. intros k.
    rewrite (iter_roll _ 1 lw_update_one), (iter_roll _ 1 upwind_update_one).
    reflexivity.
  - f_equal. lia.
  - f_equal. lia.
Qed.

Lemma lax_wendroff_unit_courant_witness :
  fst (App.lax_wendroff [1; 0; 0] 1 1 2) = fst (App.upwind [1; 0; 0] 1 1 2)
  /\ final_field (fst (App.lax_wendroff [1; 0; 0] 1 1 2)) = Np.roll [1; 0; 0] 2.
Proof.
  destruct (lax_wendroff_unit_courant_shifts [1; 0; 0] 1 2) as (_ & _ & H1 & H2 & _).
  - lia.
  - split; [exact H1 | exact H2].
Defined.

Lemma roll_periodic {A : Type} (a : list A) (k m : Z) :
  Np.roll a (k + m * Z.of_nat (length a)) = Np.roll a k.
Proof.
  unfold Np.roll. destruct (length a) as [|n] eqn:E.
  - cbn [Nat.eqb]. rewrite !Z.mod_1_r. reflexivity.
  - cbn [Nat.eqb]. rewrite Z_mod_plus_full. reflexivity.
Qed.

(** X13: a full turn round the periodic domain restores the field: with
    [C = 1], after a number of steps that is a multiple of [Nx], the final
    field of Upwind and of Lax-Wendroff is the initial field. *)
Theorem unit_courant_full_turn
  (u0 : Np.ndarray) (dx : R) (Nt m : Z) :
  (0 <= Nt)%Z ->
  Nt = (m * Z.of_nat (length u0))%Z ->
  final_field (fst (App.upwind u0 1 dx Nt)) = u0
  /\ final_field (fst (App.lax_wendroff u0 1 dx Nt)) = u0.
Proof.
  intros HNt Hm.
  rewrite upwind_closed, lax_wendroff_closed. cbn [fst].
  rewrite !final_field_closed.
  rewrite (iter_roll _ 1 lw_update_one), (iter_roll _ 1 upwind_update_one).
  replace (Z.of_nat (Z.to_nat Nt) * 1)%Z
    with (0 + m * Z.of_nat (length u0))%Z by lia.
  rewrite roll_periodic, roll_0. split; reflexivity.
Qed.

Lemma unit_courant_full_turn_witness :
  final_field (fst (App.upwind [1; 2; 3] 1 1 6)) = [1; 2; 3]
  /\ final_field (fst (App.lax_wendroff [1; 2; 3] 1 1 6)) = [1; 2; 3].
Proof.
  apply (unit_courant_full_turn [1; 2; 3] 1 6 2); [lia | reflexivity].
Defined.

(** ** Shifting the initial field *)











(** ** Scalar products on the periodic grid *)

Lemma sum_sq_dot a : sum_sq a = dot a a.
Proof.
  unfold sum_sq, dot, Np.sum, Np.square.
  induction a as [|x a IH]; cbn [map Np.zip_with fold_right]; [reflexivity|].
  rewrite IH. ring.
Qed.

Lemma dot_comm a b : dot a b = dot b a.
Proof. apply sum_mul_comm. Qed.

Lemma dot_sub_l a b d :
  length a = length b -> dot (a -: b) d = dot a d - dot b d.
Proof.
  unfold dot, Np.sum, Np.sub. revert b d.
  induction a as [|x a IH]; intros [|y b] [|z d] H; cbn in *;
    try discriminate; try lra.
  rewrite IH by congruence. ring.
Qed.

Lemma dot_sub_r a b d :
  length b = length d -> dot a (b -: d) = dot a b - dot a d.
Proof.
  intros H. rewrite dot_comm, dot_sub_l by exact H.
  now rewrite (dot_comm b a), (dot_comm d a).
Qed.

Lemma dot_scale_l c a d : dot (c *: a) d = c * dot a d.
Proof.
  unfold dot, Np.sum, Np.scale. revert d.
  induction a as [|x a IH]; intros [|z d]; cbn; try lra.
  rewrite IH. ring.
Qed.

Lemma dot_roll a b k :
  length a = length b -> dot (Np.roll a k) (Np.roll b k) = dot a b.
Proof.
  intros H. unfold dot. rewrite <- roll_zip_with by exact H. apply sum_roll.
Qed.

Lemma dot_roll_r a b k :
  length a = length b -> dot a (Np.roll b k) = dot (Np.roll a (- k)) b.
Proof.
  intros H. rewrite <- (dot_roll a (Np.roll b k) (- k)) by np_len.
  rewrite roll_roll. replace (k + - k)%Z with 0%Z by lia.
  now rewrite roll_0.
Qed.

(** The centred difference is skew-symmetric. *)
Lemma dot_centred_skew a b :
  length a = length b -> dot a (centred b) = - dot (centred a) b.
Proof.
  intros H. unfold centred.
  rewrite dot_sub_r, dot_sub_l, !dot_roll_r by np_len.
  cbn [Z.opp]. ring.
Qed.

Lemma sum_sq_sub_scale c a d :
  length a = length d ->
  sum_sq (a -: c *: d) = sum_sq a - 2 * c * dot a d + c ^ 2 * sum_sq d.
Proof.
  unfold sum_sq, dot, Np.sum, Np.square, Np.sub, Np.scale. revert d.
  induction a as [|x a IH]; intros [|y d] H; cbn [length] in *;
    try discriminate; cbn [Np.zip_with map fold_right]; [lra|].
  rewrite IH by congruence. ring.
Qed.

(** ** Upwind: no new extremes, no growth of the sum of squares *)

Lemma upwind_update_range C u lo hi :
  0 <= C <= 1 ->
  (forall x, In x u -> lo <= x <= hi) ->
  forall z, In z (App.upwind_update C u) -> lo <= z <= hi.
Proof.
  intros HC Hu z Hz.
  apply (In_nth _ _ 0) in Hz. destruct Hz as (i & Hi & <-).
  rewrite upwind_update_length in Hi.
  rewrite upwind_update_nth by exact Hi.
  assert (Hj : ((i + length u - 1) mod length u < length u)%nat)
    by (apply Nat.mod_upper_bound; lia).
  pose proof (Hu _ (nth_In u 0 Hi)) as Bi.
  pose proof (Hu _ (nth_In u 0 Hj)) as Bj.
  set (x := nth i u 0) in *. set (y := nth _ u 0) in *.
  replace (x - C * (x - y)) with ((1 - C) * x + C * y) by ring.
  split; nra.
Qed.

(** X15: for [0 <= C <= 1] the Upwind scheme creates no new extremes: if
    all values of the initial field lie in [[lo, hi]], so do all values of
    every snapshot; in particular a non-negative field stays non-negative
    and max |u| never grows. *)
Theorem upwind_keeps_the_range
  (u0 : Np.ndarray) (C dx lo hi : R) (Nt : Z) :
  0 <= C <= 1 ->
  (forall x, In x u0 -> lo <= x <= hi) ->
  Forall (fun h => forall z, In z h -> lo <= z <= hi)
         (fst (App.upwind u0 C dx Nt))
  /\ Forall (fun h => max_abs h <= max_abs u0) (fst (App.upwind u0 C dx Nt)).
Proof.
  intros HC Hu.
  assert (Hgen : forall lo hi, (forall x, In x u0 -> lo <= x <= hi) ->
            forall k z, In z (Nat.iter k (App.upwind_update C) u0) -> lo <= z <= hi).
  { intros lo' hi' Hu' k. induction k as [|k IH]; [exact Hu'|].
    change (Nat.iter (S k) (App.upwind_update C) u0)
      with (App.upwind_update C (Nat.iter k (App.upwind_update C) u0)).
    apply upwind_update_range; assumption. }
  rewrite upwind_closed. cbn [fst].
  split; apply Forall_forall; intros h Hh; apply in_map_iff in Hh;
    destruct Hh as (k & <- & _).
  - apply Hgen, Hu.
  - apply max_abs_le; [apply max_abs_nonneg|].
    intros z Hz. apply Rabs_le.
    apply (Hgen (- max_abs u0) (max_abs u0)) with (k := k); [|exact Hz].
    intros x Hx. apply Rabs_bounds, max_abs_ge, Hx.
Qed.

Lemma upwind_keeps_the_range_witness :
  Forall (fun h => forall z, In z h -> 0 <= z <= 1)
         (fst (App.upwind [0; 1; 1; 1] 0.8 0.25 5)).
Proof.
  destruct (upwind_keeps_the_range [0; 1; 1; 1] 0.8 0.25 0 1 5) as (H & _).
  - lra.
  - intros x Hx. cbn in Hx.
    destruct Hx as [<-|[<-|[<-|[<-|[]]]]]; lra.
  - exact H.
Defined.

Lemma upwind_update_sum_sq C u :
  sum_sq (App.upwind_update C u)
  = sum_sq u - C * (1 - C) * sum_sq (u -: Np.roll u 1).
Proof.
  unfold App.upwind_update.
  rewrite sum_sq_sub_scale by np_len.
  assert (Hd : sum_sq (u -: Np.roll u 1) = 2 * dot u (u -: Np.roll u 1)).
  { rewrite (sum_sq_dot (u -: Np.roll u 1)).
    rewrite dot_sub_l, !dot_sub_r by np_len.
    rewrite (dot_roll u u 1) by reflexivity.
    rewrite (dot_comm (Np.roll u 1) u). ring. }
  rewrite Hd. ring.
Qed.

(** X16: the energy balance of Upwind: one update changes the sum of
    squares by [- C (1 - C) sum_i (u[i] - u[i-1])^2].  Hence for
    [0 <= C <= 1] the sum of squares of every snapshot is at most that of
    the initial field, and for [C >= 1] one update never lowers it. *)
Theorem upwind_energy_balance (u0 : Np.ndarray) (C dx : R) (Nt : Z) :
  sum_sq (App.upwind_update C u0)
  = sum_sq u0 - C * (1 - C) * sum_sq (u0 -: Np.roll u0 1)
  /\ (0 <= C <= 1 ->
      Forall (fun h => sum_sq h <= sum_sq u0) (fst (App.upwind u0 C dx Nt)))
  /\ (1 <= C -> sum_sq u0 <= sum_sq (App.upwind_update C u0)).
Proof.
  split; [apply upwind_update_sum_sq|]. split.
  - intros HC. rewrite upwind_closed. cbn [fst].
    apply Forall_forall. intros h Hh. apply in_map_iff in Hh.
    destruct Hh as (k & <- & _).
    induction k as [|k IH]; [apply Rle_refl|].
    change (Nat.iter (S k) (App.upwind_update C) u0)
      with (App.upwind_update C (Nat.iter k (App.upwind_update C) u0)).
    rewrite upwind_update_sum_sq.
    pose proof (sum_sq_nonneg (Nat.iter k (App.upwind_update C) u0
                               -: Np.roll (Nat.iter k (App.upwind_update C) u0) 1))
      as Hs.
    assert (Hc : 0 <= C * (1 - C)) by nra.
    pose proof (Rmult_le_pos _ _ Hc Hs). lra.
  - intros HC. rewrite upwind_update_sum_sq.
    pose proof (sum_sq_nonneg (u0 -: Np.roll u0 1)) as Hs.
    assert (Hc : 0 <= C * (C - 1)) by nra.
    pose proof (Rmult_le_pos _ _ Hc Hs). lra.
Qed.

Lemma upwind_energy_witness :
  Forall (fun h => sum_sq h <= sum_sq [0; 1; 1; 1])
         (fst (App.upwind [0; 1; 1; 1] 0.8 0.25 5)).
Proof.
  destruct (upwind_energy_balance [0; 1; 1; 1] 0.8 0.25 5) as (_ & H & _).
  apply H. lra.
Defined.

(** ** Lax-Wendroff: the sum of squares *)

Lemma sum_sq_lw_combination C a r l :
  length a = length r -> length a = length l ->
  sum_sq (a -: (0.5 * C) *: (r -: l) +: (0.5 * C ^ 2) *: (r -: 2 *: a +: l))
  = (1 - C ^ 2) ^ 2 * dot a a
    + (C * (C - 1) / 2) ^ 2 * dot r r
    + (C * (C + 1) / 2) ^ 2 * dot l l
    + 2 * (1 - C ^ 2) * (C * (C - 1) / 2) * dot a r
    + 2 * (1 - C ^ 2) * (C * (C + 1) / 2) * dot a l
    + 2 * (C * (C - 1) / 2) * (C * (C + 1) / 2) * dot r l.
Proof.
  unfold sum_sq, dot, Np.sum, Np.square, Np.sub, Np.add, Np.scale. revert r l.
  induction a as [|x a IH]; intros [|y r] [|z l] Hr Hl; cbn [length] in *;
    try discriminate; cbn [Np.zip_with map fold_right]; [lra|].
  rewrite IH by congruence. replace 0.5 with (/ 2) by lra. field.
Qed.

Lemma sum_sq_second_difference_combination a r l :
  length a = length r -> length a = length l ->
  sum_sq (r -: 2 *: a +: l)
  = dot r r + 4 * dot a a + dot l l - 4 * dot a r - 4 * dot a l + 2 * dot r l.
Proof.
  unfold sum_sq, dot, Np.sum, Np.square, Np.sub, Np.add, Np.scale. revert r l.
  induction a as [|x a IH]; intros [|y r] [|z l] Hr Hl; cbn [length] in *;
    try discriminate; cbn [Np.zip_with map fold_right]; [lra|].
  rewrite IH by congruence. ring.
Qed.

Lemma lw_update_sum_sq C u :
  sum_sq (App.lw_update C u)
  = sum_sq u - C ^ 2 * (1 - C ^ 2) / 4 * sum_sq (second_difference u).
Proof.
  unfold App.lw_update, second_difference. cbv zeta.
  rewrite sum_sq_lw_combination, sum_sq_second_difference_combination by np_len.
  rewrite sum_sq_dot.
  rewrite (dot_roll u u (-1)), (dot_roll u u 1) by reflexivity.
  assert (E : dot u (Np.roll u (-1)) = dot u (Np.roll u 1))
    by apply sum_neighbour_products.
  rewrite E. field.
Qed.

(** X17: the energy balance of Lax-Wendroff: one update changes the sum of
    squares by [- C^2 (1 - C^2) / 4 * sum_i (u[i+1] - 2 u[i] + u[i-1])^2].
    Hence for [-1 <= C <= 1] the sum of squares of every snapshot is at
    most that of the initial field, and for [|C| >= 1] one update never
    lowers it. *)
Theorem lax_wendroff_energy_balance (u0 : Np.ndarray) (C dx : R) (Nt : Z) :
  sum_sq (App.lw_update C u0)
  = sum_sq u0 - C ^ 2 * (1 - C ^ 2) / 4 * sum_sq (second_difference u0)
  /\ (-1 <= C <= 1 ->
      Forall (fun h => sum_sq h <= sum_sq u0)
             (fst (App.lax_wendroff u0 C dx Nt)))
  /\ (1 <= C ^ 2 -> sum_sq u0 <= sum_sq (App.lw_update C u0)).
Proof.
  split; [apply lw_update_sum_sq|]. split.
  - intros HC. rewrite lax_wendroff_closed. cbn [fst].
    apply Forall_forall. intros h Hh. apply in_map_iff in Hh.
    destruct Hh as (k & <- & _).
    induction k as [|k IH]; [apply Rle_refl|].
    change (Nat.iter (S k) (App.lw_update C) u0)
      with (App.lw_update C (Nat.iter k (App.lw_update C) u0)).
    rewrite lw_update_sum_sq.
    pose proof (sum_sq_nonneg
                  (second_difference (Nat.iter k (App.lw_update C) u0))) as Hs.
    assert (Hc : 0 <= C ^ 2 * (1 - C ^ 2) / 4).
    { pose proof (pow2_ge_0 C). assert (C ^ 2 <= 1) by nra.
      apply Rmult_le_pos; [apply Rmult_le_pos|]; lra. }
    pose proof (Rmult_le_pos _ _ Hc Hs). lra.
  - intros HC. rewrite lw_update_sum_sq.
    pose proof (sum_sq_nonneg (second_difference u0)) as Hs.
    assert (Hc : 0 <= C ^ 2 * (C ^ 2 - 1) / 4).
    { pose proof (pow2_ge_0 C).
      apply Rmult_le_pos; [apply Rmult_le_pos|]; lra. }
    pose proof (Rmult_le_pos _ _ Hc Hs). lra.
Qed.

Lemma lax_wendroff_energy_witness :
  Forall (fun h => sum_sq h <= sum_sq [0; 1; 1; 1])
         (fst (App.lax_wendroff [0; 1; 1; 1] 0.8 0.25 5)).
Proof.
  destruct (lax_wendroff_energy_balance [0; 1; 1; 1] 0.8 0.25 5) as (_ & H & _).
  apply H. lra.
Defined.

(** ** Leapfrog: a conserved quadratic form *)

Lemma leapfrog_energy_step C p c :
  length p = length c ->
  leapfrog_energy C c (p -: C *: (Np.roll c (-1) -: Np.roll c 1))
  = leapfrog_energy C p c.
Proof.
  intros Hl. unfold leapfrog_energy. fold (centred c).
  assert (Hlc : length (centred c) = length c) by (unfold centred; np_len).
  rewrite sum_sq_sub_scale by congruence.
  rewrite dot_sub_l, dot_scale_l by (rewrite scale_length; congruence).
  rewrite (dot_centred_skew c p) by congruence.
  rewrite (dot_comm (centred c) p), <- (sum_sq_dot (centred c)). ring.
Qed.

Lemma leapfrog_levels_energy C u0 n :
  leapfrog_energy C (fst (leapfrog_levels C u0 n)) (snd (leapfrog_levels C u0 n))
  = leapfrog_energy C u0 (App.fecs_update C u0).
Proof.
  induction n as [|n IH]; [reflexivity|].
  cbn [leapfrog_levels fst snd].
  destruct (leapfrog_levels_shape C u0 n) as [L1 L2].
  rewrite leapfrog_energy_step by congruence. exact IH.
Qed.

(** X18: Leapfrog neither damps nor amplifies: on every pair of
    consecutive snapshots [(p, c)] of its history the quadratic form
    [sum p^2 + sum c^2 + C sum_i c[i] (p[i+1] - p[i-1])] has the value it
    has on the first pair (the initial field and the bootstrap step), for
    every [C]. *)
Theorem leapfrog_conserves_its_energy
  (u0 : Np.ndarray) (C dx : R) (Nt k : Z) :
  (0 <= k < Nt)%Z ->
  exists p c : Np.ndarray,
    nth_error (fst (App.leapfrog u0 C dx Nt)) (Z.to_nat k) = Some p
    /\ nth_error (fst (App.leapfrog u0 C dx Nt)) (Z.to_nat (k + 1)) = Some c
    /\ leapfrog_energy C p c = leapfrog_energy C u0 (App.fecs_update C u0).
Proof.
  intros Hk.
  exists (fst (leapfrog_levels C u0 (Z.to_nat k))),
         (snd (leapfrog_levels C u0 (Z.to_nat k))).
  rewrite !leapfrog_history_level by lia.
  replace (Z.to_nat (k + 1)) with (S (Z.to_nat k)) by lia.
  split; [reflexivity|]. split; [reflexivity|].
  apply leapfrog_levels_energy.
Qed.

Lemma leapfrog_energy_witness :
  exists p c : Np.ndarray,
    nth_error (fst (App.leapfrog [1; 0; 0; 0] 0.5 1 4)) (Z.to_nat 2) = Some p
    /\ nth_error (fst (App.leapfrog [1; 0; 0; 0] 0.5 1 4)) (Z.to_nat (2 + 1))
       = Some c
    /\ leapfrog_energy 0.5 p c
       = leapfrog_energy 0.5 [1; 0; 0; 0] (App.fecs_update 0.5 [1; 0; 0; 0]).
Proof.
  apply (leapfrog_conserves_its_energy [1; 0; 0; 0] 0.5 1 4 2). lia.
Defined.

(** ** The animation frames *)

Lemma step_skip_positive Nt : (1 <= Plot.step_skip Nt)%Z.
Proof. unfold Plot.step_skip. lia. Qed.

Lemma range_step_length stop step :
  (0 < stop)%Z -> (1 <= step)%Z ->
  Z.of_nat (length (Plot.range_step stop step)) = ((stop - 1) / step + 1)%Z.
Proof.
  intros Hs Hst. unfold Plot.range_step.
  destruct (Z.leb_spec stop 0); [lia|].
  rewrite length_map, length_seq.
  pose proof (Z.div_pos (stop - 1) step ltac:(lia) ltac:(lia)). lia.
Qed.

Lemma range_step_In stop step k :
  (1 <= step)%Z ->
  In k (Plot.range_step stop step) ->
  (0 <= k < stop)%Z /\ (k mod step = 0)%Z.
Proof.
  intros Hst. unfold Plot.range_step.
  destruct (Z.leb_spec stop 0); [intros []|].
  intros Hin. apply in_map_iff in Hin. destruct Hin as (i & <- & Hi).
  apply in_seq in Hi.
  pose proof (Z.div_pos (stop - 1) step ltac:(lia) ltac:(lia)) as Hq.
  assert (Hi' : (Z.of_nat i <= (stop - 1) / step)%Z) by lia.
  pose proof (Z.mul_div_le (stop - 1) step ltac:(lia)) as Hm.
  split; [|apply Z.mod_mul; lia].
  split; [nia|].
  assert (Z.of_nat i * step <= step * ((stop - 1) / step))%Z by nia.
  lia.
Qed.

Lemma frame_steps_count Nt :
  (0 <= Nt)%Z ->
  (1 <= Z.of_nat (length (Plot.range_step (Nt + 1) (Plot.step_skip Nt))) <= 100)%Z.
Proof.
  intros HNt. pose proof (step_skip_positive Nt) as Hs.
  rewrite range_step_length by lia.
  replace (Nt + 1 - 1)%Z with Nt by lia.
  pose proof (Z.div_pos Nt (Plot.step_skip Nt) ltac:(lia) ltac:(lia)).
  split; [lia|].
  unfold Plot.step_skip in *.
  destruct (Z.le_gt_cases (Nt / 50) 1) as [Hsmall|Hbig].
  - rewrite Z.max_l by lia. rewrite Z.div_1_r.
    pose proof (Z.mod_pos_bound Nt 50 ltac:(lia)).
    pose proof (Z.div_mod Nt 50 ltac:(lia)). lia.
  - rewrite Z.max_r by lia.
    set (s := (Nt / 50)%Z) in *.
    assert (Hub : (Nt < 50 * (s + 1))%Z).
    { pose proof (Z.mod_pos_bound Nt 50 ltac:(lia)).
      pose proof (Z.div_mod Nt 50 ltac:(lia)). lia. }
    assert (Nt / s < 99)%Z; [|lia].
    apply Z.div_lt_upper_bound; [lia|]. nia.
Qed.

(** X19: the animation shows every [step_skip]-th step, with
    [step_skip = max(1, Nt // 50) >= 1]: for [Nt >= 0] the frame steps start
    at 0, are multiples of [step_skip] not above [Nt], and there are between
    1 and 100 of them; the last one is [Nt - Nt mod step_skip], so the final
    step is shown only when [step_skip] divides [Nt].  For [Nt < 0] there is
    no frame. *)
Theorem frame_steps (Nt : Z) :
  (1 <= Plot.step_skip Nt)%Z
  /\ ((Nt < 0)%Z -> Plot.range_step (Nt + 1) (Plot.step_skip Nt) = [])
  /\ ((0 <= Nt)%Z ->
      nth_error (Plot.range_step (Nt + 1) (Plot.step_skip Nt)) 0 = Some 0%Z
      /\ (forall k : Z, In k (Plot.range_step (Nt + 1) (Plot.step_skip Nt)) ->
            (0 <= k <= Nt)%Z /\ (k mod Plot.step_skip Nt = 0)%Z)
      /\ (1 <= Z.of_nat (length (Plot.range_step (Nt + 1) (Plot.step_skip Nt)))
          <= 100)%Z
      /\ last (Plot.range_step (Nt + 1) (Plot.step_skip Nt)) 0%Z
         = (Nt - Nt mod Plot.step_skip Nt)%Z).
Proof.
  pose proof (step_skip_positive Nt) as Hs.
  split; [exact Hs|]. split.
  - intros HNt. unfold Plot.range_step.
    destruct (Z.leb_spec (Nt + 1) 0); [reflexivity|lia].
  - intros HNt.
    pose proof (frame_steps_count Nt HNt) as Hc.
    split; [|split; [|split; [exact Hc|]]].
    + unfold Plot.range_step in *.
      destruct (Z.leb_spec (Nt + 1) 0); [lia|].
      rewrite length_map, length_seq in Hc.
      rewrite nth_error_map_seq by lia. reflexivity.
    + intros k Hk. apply range_step_In in Hk; [|exact Hs]. lia.
    + unfold Plot.range_step in *.
      destruct (Z.leb_spec (Nt + 1) 0); [lia|].
      replace (Nt + 1 - 1)%Z with Nt in * by lia.
      pose proof (Z.div_pos Nt (Plot.step_skip Nt) ltac:(lia) ltac:(lia)) as Hq.
      replace (Z.to_nat (Nt / Plot.step_skip Nt + 1))
        with (S (Z.to_nat (Nt / Plot.step_skip Nt))) by lia.
      rewrite seq_S, map_app. cbn [map Nat.add]. rewrite last_last.
      rewrite Z2Nat.id by lia.
      pose proof (Z.div_mod Nt (Plot.step_skip Nt) ltac:(lia)). lia.
Qed.

Lemma frame_steps_witness :
  last (Plot.range_step (125 + 1) (Plot.step_skip 125)) 0%Z
  = (125 - 125 mod Plot.step_skip 125)%Z
  /\ (1 <= Z.of_nat (length (Plot.range_step (125 + 1) (Plot.step_skip 125)))
      <= 100)%Z.
Proof.
  destruct (frame_steps 125) as (_ & _ & H).
  destruct H as (_ & _ & Hc & Hl); [lia|].
  split; [exact Hl | exact Hc].
Defined.

(** ** What the figures read from a run *)

Lemma traverse_Forall2 {A B : Type} (f : A -> option B) l ys :
  Plot.traverse f l = Some ys -> Forall2 (fun x y => f x = Some y) l ys.
Proof.
  revert ys. induction l as [|x l IH]; intros ys H; cbn in H.
  - injection H as <-. constructor.
  - destruct (f x) as [y|] eqn:Ex; [|discriminate].
    destruct (Plot.traverse f l) as [ys'|]; [|discriminate].
    injection H as <-. constructor; [exact Ex | apply IH; reflexivity].
Qed.

Lemma Forall2_impl_In {A B : Type} (P Q : A -> B -> Prop) l l' :
  (forall a b, In a l -> P a b -> Q a b) -> Forall2 P l l' -> Forall2 Q l l'.
Proof.
  intros H HF. induction HF as [|a b l l' Hab HF IH]; constructor.
  - apply H; [now left | exact Hab].
  - apply IH. intros a' b' Hin. apply H. now right.
Qed.

Lemma traverse_total {A B : Type} (f : A -> option B) l :
  (forall x, In x l -> exists y, f x = Some y) ->
  exists ys, Plot.traverse f l = Some ys.
Proof.
  induction l as [|x l IH]; intros H; cbn.
  - eexists. reflexivity.
  - destruct (H x (or_introl eq_refl)) as [y ->].
    destruct IH as [ys ->]; [intros x' Hx'; apply H; now right|].
    eexists. reflexivity.
Qed.

Lemma getitem_nonneg {A : Type} (l : list A) k :
  (0 <= k)%Z -> Plot.getitem l k = nth_error l (Z.to_nat k).
Proof.
  intros Hk. unfold Plot.getitem.
  destruct (Z.ltb_spec k 0); [lia|reflexivity].
Qed.

Lemma enabled_subset cfg name f :
  In (name, f) (App.enabled cfg) -> In (name, f) all_schemes.
Proof.
  unfold App.enabled, all_schemes.
  destruct (App.show_fecs cfg), (App.show_upwind cfg),
    (App.show_leapfrog cfg), (App.show_lw cfg); cbn; tauto.
Qed.

Lemma run_inversion cfg out :
  App.run cfg = Py.Ok out ->
  exists (dx dt : R) (Nt : Z) (x : Np.ndarray),
    App.derive cfg = Py.Ok (dx, dt, Nt)
    /\ App.grid (App.L cfg) (App.Nx cfg) = Py.Ok x
    /\ App.out_x out = x
    /\ App.out_u0 out
       = App.get_initial_condition x (App.wave_shape cfg) (App.sigma cfg)
                                   (App.x0 cfg) (App.L cfg)
    /\ App.solvers out
       = map (fun e => (fst e, fst (snd e (App.out_u0 out) (App.C cfg) dx Nt)))
             (App.enabled cfg)
    /\ App.integrals out
       = map (fun e => (fst e, snd (snd e (App.out_u0 out) (App.C cfg) dx Nt)))
             (App.enabled cfg).
Proof.
  unfold App.run.
  destruct (App.derive cfg) as [[[dx dt] Nt]|e]; [|discriminate].
  cbn [Py.bind].
  destruct (App.grid (App.L cfg) (App.Nx cfg)) as [x|e]; [|discriminate].
  cbn [Py.bind]. intros H. injection H as <-.
  exists dx, dt, Nt, x. cbn [App.out_x App.out_u0 App.solvers App.integrals].
  repeat split; rewrite map_map; apply map_ext; intros [name f]; reflexivity.
Qed.

Lemma solver_entries cfg out dx dt Nt name data :
  App.run cfg = Py.Ok out ->
  App.derive cfg = Py.Ok (dx, dt, Nt) ->
  In (name, data) (App.solvers out) ->
  exists integrate,
    In (name, integrate) all_schemes
    /\ data = fst (integrate (App.out_u0 out) (App.C cfg) dx Nt).
Proof.
  intros Hrun Hd Hin.
  destruct (run_inversion cfg out Hrun)
    as (dx' & dt' & Nt' & x & Hd' & _ & _ & _ & Hs & _).
  rewrite Hd in Hd'. injection Hd' as <- <- <-.
  rewrite Hs in Hin. apply in_map_iff in Hin.
  destruct Hin as ([n f] & E & Hen). cbn [fst snd] in E.
  injection E as <- <-. exists f. split; [|reflexivity].
  eapply enabled_subset, Hen.
Qed.

Lemma initial_traces_built cfg out dx dt Nt :
  App.run cfg = Py.Ok out ->
  App.derive cfg = Py.Ok (dx, dt, Nt) ->
  exists traces : list (string * Np.ndarray),
    Plot.initial_traces (App.solvers out) = Some traces
    /\ Forall2 (fun entry t => t = (fst entry, App.out_u0 out))
               (App.solvers out) traces.
Proof.
  intros Hrun Hd.
  destruct (traverse_total
              (fun entry => option_map (pair (fst entry))
                              (Plot.getitem (snd entry) 0))
              (App.solvers out)) as [traces Ht].
  { intros [name data] Hin. cbn [fst snd].
    destruct (solver_entries _ _ _ _ _ _ _ Hrun Hd Hin) as (f & Hf & ->).
    rewrite getitem_nonneg by lia.
    change (Z.to_nat 0) with 0%nat.
    rewrite (history_head name f _ _ _ _ Hf). eexists. reflexivity. }
  exists traces. split; [exact Ht|].
  apply traverse_Forall2 in Ht.
  eapply Forall2_impl_In; [|exact Ht].
  intros [name data] t Hin E. cbn [fst snd] in *.
  destruct (solver_entries _ _ _ _ _ _ _ Hrun Hd Hin) as (f & Hf & ->).
  rewrite getitem_nonneg in E by lia.
  change (Z.to_nat 0) with 0%nat in E.
  rewrite (history_head name f _ _ _ _ Hf) in E.
  cbn in E. now injection E as <-.
Qed.

Lemma frames_built cfg out dx dt Nt :
  App.run cfg = Py.Ok out ->
  App.derive cfg = Py.Ok (dx, dt, Nt) ->
  exists fs : list (Z * list Np.ndarray),
    Plot.frames (App.solvers out) Nt = Some fs
    /\ Forall2 (fun (k : Z) fr =>
                  fst fr = k
                  /\ Forall2 (fun entry y =>
                                nth_error (snd entry) (Z.to_nat k) = Some y)
                             (App.solvers out) (snd fr))
               (Plot.range_step (Nt + 1) (Plot.step_skip Nt)) fs.
Proof.
  intros Hrun Hd.
  pose proof (step_skip_positive Nt) as Hs.
  destruct (traverse_total
              (fun k => option_map (pair k)
                          (Plot.frame_data (App.solvers out) k))
              (Plot.range_step (Nt + 1) (Plot.step_skip Nt))) as [fs Hfs].
  { intros k Hk. apply range_step_In in Hk; [|exact Hs].
    destruct (traverse_total (fun entry => Plot.getitem (snd entry) k)
                             (App.solvers out)) as [ys Hys].
    { intros [name data] Hin. cbn [snd].
      destruct (solver_entries _ _ _ _ _ _ _ Hrun Hd Hin) as (f & Hf & ->).
      rewrite getitem_nonneg by lia.
      pose proof (history_covers_steps name f (App.out_u0 out) (App.C cfg)
                    dx Nt k Hf ltac:(lia)) as Hlen.
      destruct (nth_error _ (Z.to_nat k)) eqn:E; [eexists; reflexivity|].
      apply nth_error_None in E. lia. }
    unfold Plot.frame_data. rewrite Hys. eexists. reflexivity. }
  exists fs. split; [exact Hfs|].
  apply traverse_Forall2 in Hfs.
  eapply Forall2_impl_In; [|exact Hfs].
  intros k fr Hk E. cbn beta in E.
  unfold Plot.frame_data in E.
  destruct (Plot.traverse _ (App.solvers out)) as [ys|] eqn:Eys;
    [|discriminate].
  cbn in E. injection E as <-. cbn [fst snd]. split; [reflexivity|].
  apply traverse_Forall2 in Eys.
  eapply Forall2_impl_In; [|exact Eys].
  intros entry y _ Hg. cbn beta in Hg.
  apply range_step_In in Hk; [|exact Hs].
  rewrite getitem_nonneg in Hg by lia. exact Hg.
Qed.

(** X20: building the figures never indexes a history out of range.  After
    a successful run, for each solver the initial trace [data[0]] exists and
    is the initial field, and for every frame step [k] each solver's
    [data[k]] exists: the frames are built, one per frame step, each holding
    the snapshot [k] of every enabled solver. *)
Theorem frames_never_fail
  (cfg : App.Config) (out : App.Output) (dx dt : R) (Nt : Z) :
  App.run cfg = Py.Ok out ->
  App.derive cfg = Py.Ok (dx, dt, Nt) ->
  (exists traces : list (string * Np.ndarray),
     Plot.initial_traces (App.solvers out) = Some traces
     /\ Forall2 (fun entry t => t = (fst entry, App.out_u0 out))
                (App.solvers out) traces)
  /\ (exists fs : list (Z * list Np.ndarray),
        Plot.frames (App.solvers out) Nt = Some fs
        /\ Forall2 (fun (k : Z) fr =>
                      fst fr = k
                      /\ Forall2 (fun entry y =>
                                    nth_error (snd entry) (Z.to_nat k) = Some y)
                                 (App.solvers out) (snd fr))
                   (Plot.range_step (Nt + 1) (Plot.step_skip Nt)) fs).
Proof.
  intros Hrun Hd. split.
  - apply (initial_traces_built cfg out dx dt Nt); assumption.
  - apply (frames_built cfg out dx dt Nt); assumption.
Qed.

Lemma run_succeeds cfg :
  App.Nx cfg <> 0%Z -> App.v cfg <> 0 -> App.C cfg <> 0 -> App.L cfg <> 0 ->
  (-1 <= App.Nx cfg)%Z ->
  exists out, App.run cfg = Py.Ok out.
Proof.
  intros HNx Hv HC HL Hge. unfold App.run.
  rewrite (derive_ok cfg HNx Hv HC HL). cbn [Py.bind].
  destruct (grid_ok (App.L cfg) (App.Nx cfg) Hge) as [x ->]. cbn [Py.bind].
  eexists. reflexivity.
Qed.

Lemma half_step_derive :
  exists dx dt : R, App.derive half_step_config = Py.Ok (dx, dt, 2%Z).
Proof.
  exists (1 / 4), (1 * (1 / 4) / 1).
  rewrite derive_ok by (cbn; first [lia | lra]).
  cbn [half_step_config App.L App.Nx App.C App.v App.T_max].
  replace (0.625 / (1 * (1 / 4) / 1)) with (IZR 2 + 1 / 2) by lra.
  unfold Py.round. rewrite (Zfloor_eq 2) by lra.
  destruct (Rlt_dec (IZR 2 + 1 / 2 - IZR 2) (1 / 2)) as [H|_]; [lra|].
  destruct (Rlt_dec (1 / 2) (IZR 2 + 1 / 2 - IZR 2)) as [H|_]; [lra|].
  reflexivity.
Qed.

Lemma frames_never_fail_witness :
  exists (out : App.Output) (fs : list (Z * list Np.ndarray)),
    App.run half_step_config = Py.Ok out
    /\ Plot.frames (App.solvers out) 2 = Some fs.
Proof.
  destruct half_step_derive as (dx & dt & Hd).
  destruct (run_succeeds half_step_config) as [out Hrun];
    try (cbn; first [lia | lra]).
  destruct (frames_never_fail half_step_config out dx dt 2 Hrun Hd)
    as (_ & fs & Hfs & _).
  exists out, fs. split; [exact Hrun | exact Hfs].
Defined.

(** ** The heat maps *)

Lemma linspace_shape start stop num :
  (2 <= num)%Z ->
  exists y : Np.ndarray,
    Np.linspace start stop num = Py.Ok y
    /\ Z.of_nat (length y) = num
    /\ nth 0 y 0 = start
    /\ last y 0 = stop.
Proof.
  intros Hn. unfold Np.linspace.
  destruct (Z.ltb_spec num 0); [lia|].
  destruct (Z.to_nat num) as [|[|m]] eqn:E; try lia.
  eexists. split; [reflexivity|].
  rewrite length_app, length_map, length_seq, last_last.
  cbn [length seq map app nth INR].
  repeat split; [lia | ring].
Qed.

Lemma linspace_negative start stop num :
  (num < 0)%Z -> Np.linspace start stop num = Py.Raise Py.ValueError.
Proof.
  intros H. unfold Np.linspace. destruct (Z.ltb_spec num 0); [reflexivity|lia].
Qed.

Lemma history_length_from_one_step name integrate u0 C dx Nt :
  In (name, integrate) all_schemes -> (1 <= Nt)%Z ->
  Z.of_nat (length (fst (integrate u0 C dx Nt))) = (Nt + 1)%Z.
Proof.
  intros Hin HNt. cbn in Hin.
  destruct Hin as [E|[E|[E|[E|[]]]]]; inversion E; subst; clear E.
  - apply fecs_lengths. lia.
  - apply upwind_lengths. lia.
  - pose proof (leapfrog_lengths u0 C dx Nt). lia.
  - apply lax_wendroff_lengths. lia.
Qed.

Lemma heatmaps_ok solvers T_max Nt y :
  Np.linspace 0 T_max (Nt + 1) = Py.Ok y ->
  Plot.heatmaps solvers T_max Nt
  = Py.Ok (map (fun entry => (fst entry, snd entry, y)) solvers).
Proof.
  intros Hy. induction solvers as [|[name data] rest IH];
    cbn [Plot.heatmaps map]; [reflexivity|].
  rewrite Hy. cbn [Py.bind]. rewrite IH. reflexivity.
Qed.

(** X21: the heat maps of a run with [Nt >= 1] are well formed: for every
    enabled solver the matrix has [Nt + 1] rows, as many as the time axis
    has points, each row has one value per grid point, and the time axis
    runs from 0 to [T_max].  With [Nt < -1] and a solver enabled, building
    the time axis raises [ValueError]. *)
Theorem heatmaps_are_well_formed
  (cfg : App.Config) (out : App.Output) (dx dt : R) (Nt : Z) :
  App.run cfg = Py.Ok out ->
  App.derive cfg = Py.Ok (dx, dt, Nt) ->
  ((1 <= Nt)%Z ->
   exists t_vals_heat : Np.ndarray,
     Plot.heatmaps (App.solvers out) (App.T_max cfg) Nt
     = Py.Ok (map (fun entry => (fst entry, snd entry, t_vals_heat))
                  (App.solvers out))
     /\ Z.of_nat (length t_vals_heat) = (Nt + 1)%Z
     /\ nth 0 t_vals_heat 0 = 0
     /\ last t_vals_heat 0 = App.T_max cfg
     /\ Forall (fun entry =>
                  length (snd entry) = length t_vals_heat
                  /\ Forall (fun row => length row = length (App.out_x out))
                            (snd entry))
               (App.solvers out))
  /\ ((Nt < -1)%Z -> App.solvers out <> [] ->
      Plot.heatmaps (App.solvers out) (App.T_max cfg) Nt
      = Py.Raise Py.ValueError).
Proof.
  intros Hrun Hd. split.
  - intros HNt.
    destruct (linspace_shape 0 (App.T_max cfg) (Nt + 1) ltac:(lia))
      as (y & Hy & Hlen & H0 & Hlast).
    exists y. split; [apply heatmaps_ok, Hy|].
    repeat split; try assumption.
    apply Forall_forall. intros [name data] Hin. cbn [snd].
    destruct (solver_entries _ _ _ _ _ _ _ Hrun Hd Hin) as (f & Hf & ->).
    split.
    + pose proof (history_length_from_one_step name f (App.out_u0 out)
                    (App.C cfg) dx Nt Hf HNt) as Hrows.
      apply Nat2Z.inj. etransitivity; [exact Hrows | symmetry; exact Hlen].
    + pose proof (history_rows name f (App.out_u0 out) (App.C cfg) dx Nt Hf)
        as Hrect.
      destruct (run_inversion cfg out Hrun)
        as (_ & _ & _ & x & _ & _ & Hx & Hu0 & _).
      assert (Hl : length (App.out_u0 out) = length (App.out_x out)).
      { rewrite Hu0, Hx. apply initial_condition_length. }
      rewrite <- Hl. exact Hrect.
  - intros HNt Hne.
    destruct (App.solvers out) as [|[name data] rest]; [congruence|].
    cbn [Plot.heatmaps]. rewrite linspace_negative by lia. reflexivity.
Qed.

Lemma heatmaps_witness :
  exists (out : App.Output) (t_vals_heat : Np.ndarray),
    App.run half_step_config = Py.Ok out
    /\ Plot.heatmaps (App.solvers out) (App.T_max half_step_config) 2
       = Py.Ok (map (fun entry => (fst entry, snd entry, t_vals_heat))
                    (App.solvers out))
    /\ Z.of_nat (length t_vals_heat) = (2 + 1)%Z.
Proof.
  destruct half_step_derive as (dx & dt & Hd).
  destruct (run_succeeds half_step_config) as [out Hrun];
    try (cbn; first [lia | lra]).
  destruct (heatmaps_are_well_formed half_step_config out dx dt 2 Hrun Hd)
    as (H & _).
  destruct H as (y & Hy & Hlen & _); [lia|].
  exists out, y. split; [exact Hrun|]. split; [exact Hy | exact Hlen].
Defined.

(** ** Superposition *)

Lemma leapfrog_step_add C p1 c1 p2 c2 :
  length p1 = length c1 -> length p2 = length c2 -> length c1 = length c2 ->
  (p1 +: p2) -: C *: (Np.roll (c1 +: c2) (-1) -: Np.roll (c1 +: c2) 1)
  = (p1 -: C *: (Np.roll c1 (-1) -: Np.roll c1 1))
    +: (p2 -: C *: (Np.roll c2 (-1) -: Np.roll c2 1)).
Proof.
  intros H1 H2 H12.
  apply (nth_ext _ _ 0 0); [np_len|].
  intros i Hi. autorewrite with np_len in Hi.
  assert (Hlc : length (c1 +: c2) = length c1) by np_len.
  assert (Hm : ((i + 1) mod length c1 < length c1
                /\ (i + length c1 - 1) mod length c1 < length c1)%nat)
    by (split; apply Nat.mod_upper_bound; lia).
  rewrite add_nth by np_len.
  rewrite !leapfrog_step_nth by np_len.
  rewrite Hlc, <- H12.
  rewrite !add_nth by lia. ring.
Qed.

Lemma leapfrog_step_scale C s p c :
  length p = length c ->
  (s *: p) -: C *: (Np.roll (s *: c) (-1) -: Np.roll (s *: c) 1)
  = s *: (p -: C *: (Np.roll c (-1) -: Np.roll c 1)).
Proof.
  intros H.
  apply (nth_ext _ _ 0 0); [np_len|].
  intros i Hi. autorewrite with np_len in Hi.
  rewrite scale_nth, !leapfrog_step_nth by np_len.
  rewrite scale_length, !scale_nth. ring.
Qed.

Lemma updates_are_linear C s a b :
  length a = length b ->
  (App.fecs_update C (a +: b) = App.fecs_update C a +: App.fecs_update C b
   /\ App.upwind_update C (a +: b)
      = App.upwind_update C a +: App.upwind_update C b
   /\ App.lw_update C (a +: b) = App.lw_update C a +: App.lw_update C b)
  /\ (App.fecs_update C (s *: a) = s *: App.fecs_update C a
      /\ App.upwind_update C (s *: a) = s *: App.upwind_update C a
      /\ App.lw_update C (s *: a) = s *: App.lw_update C a).
Proof.
  intros H.
  assert (Hlab : length (a +: b) = length a) by np_len.
  split; repeat split;
    apply (nth_ext _ _ 0 0);
    rewrite ?add_length, ?scale_length, ?fecs_update_length,
      ?upwind_update_length, ?lw_update_length, ?add_length, ?scale_length;
    try lia; intros i Hi;
    assert (Hm : ((i + 1) mod length a < length a
                  /\ (i + length a - 1) mod length a < length a)%nat)
      by (split; apply Nat.mod_upper_bound; lia);
    rewrite ?add_nth, ?scale_nth
      by (rewrite ?fecs_update_length, ?upwind_update_length,
            ?lw_update_length; lia);
    rewrite ?fecs_update_nth, ?upwind_update_nth, ?lw_update_nth
      by (rewrite ?scale_length; lia);
    rewrite ?Hlab, ?scale_length, <- ?H;
    rewrite ?add_nth, ?scale_nth by lia;
    ring.
Qed.

Lemma iter_add (upd : Np.ndarray -> Np.ndarray) :
  (forall u, length (upd u) = length u) ->
  (forall a b, length a = length b -> upd (a +: b) = upd a +: upd b) ->
  forall k a b, length a = length b ->
    Nat.iter k upd (a +: b) = Nat.iter k upd a +: Nat.iter k upd b.
Proof.
  intros Hlen Hadd k a b H. induction k as [|k IH]; [reflexivity|].
  change (Nat.iter (S k) upd (a +: b)) with (upd (Nat.iter k upd (a +: b))).
  rewrite IH. apply Hadd.
  rewrite !iter_length by exact Hlen. exact H.
Qed.

Lemma iter_scale (upd : Np.ndarray -> Np.ndarray) s :
  (forall a, upd (s *: a) = s *: upd a) ->
  forall k a, Nat.iter k upd (s *: a) = s *: Nat.iter k upd a.
Proof.
  intros Hs k a. induction k as [|k IH]; [reflexivity|].
  change (Nat.iter (S k) upd (s *: a)) with (upd (Nat.iter k upd (s *: a))).
  rewrite IH. apply Hs.
Qed.

Lemma leapfrog_levels_add C a b n :
  length a = length b ->
  leapfrog_levels C (a +: b) n
  = (fst (leapfrog_levels C a n) +: fst (leapfrog_levels C b n),
     snd (leapfrog_levels C a n) +: snd (leapfrog_levels C b n)).
Proof.
  intros H. induction n as [|n IH]; cbn [leapfrog_levels fst snd].
  - f_equal. apply (updates_are_linear C 0 a b H).
  - rewrite IH. cbn [fst snd].
    destruct (leapfrog_levels_shape C a n) as [A1 A2].
    destruct (leapfrog_levels_shape C b n) as [B1 B2].
    f_equal. apply leapfrog_step_add; congruence.
Qed.

Lemma leapfrog_levels_scale C s a n :
  leapfrog_levels C (s *: a) n
  = (s *: fst (leapfrog_levels C a n), s *: snd (leapfrog_levels C a n)).
Proof.
  induction n as [|n IH]; cbn [leapfrog_levels fst snd].
  - f_equal. apply (updates_are_linear C s a a eq_refl).
  - rewrite IH. cbn [fst snd].
    destruct (leapfrog_levels_shape C a n) as [A1 A2].
    f_equal. apply leapfrog_step_scale. congruence.
Qed.

(** X22: in exact arithmetic the schemes are linear in the initial field.
    For two initial fields of one length the history of their sum is,
    snapshot by snapshot, the sum of their histories, and the history of
    [s] times a field is [s] times its history.  (In binary64 the rounding
    of each update breaks this in the last bits.) *)
Theorem histories_superpose
  (name : string) (integrate : Np.ndarray -> R -> R -> Z -> list Np.ndarray * list R)
  (a b : Np.ndarray) (s C dx : R) (Nt : Z) :
  In (name, integrate) all_schemes ->
  length a = length b ->
  fst (integrate (a +: b) C dx Nt)
  = Np.zip_with Np.add (fst (integrate a C dx Nt)) (fst (integrate b C dx Nt))
  /\ fst (integrate (s *: a) C dx Nt)
     = map (Np.scale s) (fst (integrate a C dx Nt)).
Proof.
  intros Hin H.
  cbn in Hin.
  destruct Hin as [E|[E|[E|[E|[]]]]]; inversion E; subst; clear E;
    rewrite ?fecs_closed, ?upwind_closed, ?leapfrog_closed, ?lax_wendroff_closed;
    cbn [fst Np.zip_with map]; rewrite ?zip_with_map_map, ?map_map.
  - split; apply map_ext; intros k.
    + apply iter_add; [apply fecs_update_length | | exact H].
      intros u v Huv. apply (updates_are_linear C 0 u v Huv).
    + apply iter_scale. intros u. apply (updates_are_linear C s u u eq_refl).
  - split; apply map_ext; intros k.
    + apply iter_add; [apply upwind_update_length | | exact H].
      intros u v Huv. apply (updates_are_linear C 0 u v Huv).
    + apply iter_scale. intros u. apply (updates_are_linear C s u u eq_refl).
  - split; f_equal; apply map_ext; intros k.
    + now rewrite leapfrog_levels_add.
    + now rewrite leapfrog_levels_scale.
  - split; apply map_ext; intros k.
    + apply iter_add; [apply lw_update_length | | exact H].
      intros u v Huv. apply (updates_are_linear C 0 u v Huv).
    + apply iter_scale. intros u. apply (updates_are_linear C s u u eq_refl).
Qed.

Lemma histories_superpose_witness :
  fst (App.leapfrog ([1; 0; 0] +: [0; 2; 0]) 0.5 1 3)
  = Np.zip_with Np.add (fst (App.leapfrog [1; 0; 0] 0.5 1 3))
                       (fst (App.leapfrog [0; 2; 0] 0.5 1 3)).
Proof.
  apply (histories_superpose "Leapfrog" App.leapfrog [1; 0; 0] [0; 2; 0] 1 0.5 1 3).
  - cbn. tauto.
  - reflexivity.
Defined.

(** ** The circular shift rearranges *)


(** ** Every slider setting runs *)



(** ** Configurations that are not checked *)

Lemma uniform_field_fixed (c : R) (n : nat) (C : R) :
  App.fecs_update C (repeat c n) = repeat c n
  /\ App.upwind_update C (repeat c n) = repeat c n
  /\ App.lw_update C (repeat c n) = repeat c n
  /\ repeat c n -: C *: (Np.roll (repeat c n) (-1) -: Np.roll (repeat c n) 1)
     = repeat c n.
Proof.
  assert (Hpt : forall i, (i < n)%nat -> nth i (repeat c n) 0 = c)
    by (intros i Hi; now apply nth_repeat_lt).
  assert (Hm : forall i, (i < n)%nat ->
             ((i + 1) mod n < n /\ (i + n - 1) mod n < n)%nat)
    by (intros i Hi; split; apply Nat.mod_upper_bound; lia).
  repeat split; apply (nth_ext _ _ 0 0);
    rewrite ?fecs_update_length, ?upwind_update_length, ?lw_update_length;
    try reflexivity; try np_len;
    intros i Hi; autorewrite with np_len in Hi;
    rewrite ?fecs_update_nth, ?upwind_update_nth, ?lw_update_nth,
      ?leapfrog_step_nth by (reflexivity || exact Hi);
    rewrite repeat_length in *;
    destruct (Hm i Hi) as [H1 H2]; rewrite !Hpt by assumption; lra.
Qed.

Lemma Forall_eq_repeat {A : Type} (a : A) (l : list A) :
  Forall (fun h => h = a) l -> l = repeat a (length l).
Proof.
  induction 1 as [|h l -> _ IH]; cbn; [reflexivity|]. now rewrite <- IH.
Qed.

(** A uniform field run for [Nt >= 1] steps: [Nt + 1] copies of the field
    and of its mass. *)
Lemma uniform_field_run name integrate c n C dx Nt :
  In (name, integrate) all_schemes -> (1 <= Nt)%Z ->
  integrate (repeat c n) C dx Nt
  = (repeat (repeat c n) (Z.to_nat (Nt + 1)),
     repeat (Np.sum (repeat c n) * dx) (Z.to_nat (Nt + 1))).
Proof.
  intros Hin HNt.
  destruct (uniform_field_fixed c n C) as (Hf & Hu & Hl & Hlf).
  pose proof (fixed_field_history name integrate (repeat c n) C dx Nt
                Hin Hf Hu Hl Hlf) as Hall.
  pose proof (history_length_from_one_step name integrate (repeat c n) C dx
                Nt Hin HNt) as Hlen.
  pose proof (mass_trace_map name integrate (repeat c n) C dx Nt Hin) as Hmass.
  apply Forall_eq_repeat in Hall.
  destruct (integrate (repeat c n) C dx Nt) as [hist mass].
  cbn [fst snd] in *.
  replace (Z.to_nat (Nt + 1)) with (length hist) by lia.
  rewrite Hmass. set (k := length hist) in *. clearbody k.
  rewrite Hall, map_repeat. reflexivity.
Qed.

Lemma grid_minus_one_four : App.grid (-1) 4 = Py.Ok [0; -0.25; -0.5; -0.75].
Proof.
  unfold App.grid, Np.linspace.
  change (4 + 1 <? 0)%Z with false. cbv iota.
  change (Z.to_nat (4 + 1)) with 5%nat. cbv iota beta zeta.
  cbn [seq map app Py.bind removelast INR].
  repeat f_equal; lra.
Qed.

Lemma square_pulse_negative_sigma :
  App.get_initial_condition [0; -0.25; -0.5; -0.75] "Square Pulse" (-0.3) 0.5 (-1)
  = [0; 0; 0; 0].
Proof.
  unfold App.get_initial_condition.
  change ("Square Pulse" =? "Gaussian Bell")%string with false.
  change ("Square Pulse" =? "Square Pulse")%string with true. cbv iota.
  unfold Np.where_scalars, Np.lt_scalar, Np.abs, Np.sub_scalar.
  cbn [map]. decide_Rlt. reflexivity.
Qed.

(** The run with [L], [v], [T_max], [C] and [sigma] all negative: [dx] and
    [dt] are [-0.25], [Nt] is 4, the grid runs downwards from 0, the Square
    Pulse with a negative width is zero everywhere, and each integrator
    performs its four steps on that field. *)
Lemma negative_signs_run :
  App.run negative_signs_config
  = Py.Ok {| App.out_x := [0; -0.25; -0.5; -0.75];
             App.out_u0 := [0; 0; 0; 0];
             App.solvers :=
               [("FECS", repeat [0; 0; 0; 0] 5);
                ("Upwind", repeat [0; 0; 0; 0] 5);
                ("Leapfrog", repeat [0; 0; 0; 0] 5);
                ("Lax-Wendroff", repeat [0; 0; 0; 0] 5)];
             App.integrals :=
               [("FECS", repeat (Np.sum [0; 0; 0; 0] * (-1 / 4)) 5);
                ("Upwind", repeat (Np.sum [0; 0; 0; 0] * (-1 / 4)) 5);
                ("Leapfrog", repeat (Np.sum [0; 0; 0; 0] * (-1 / 4)) 5);
                ("Lax-Wendroff", repeat (Np.sum [0; 0; 0; 0] * (-1 / 4)) 5)] |}.
Proof.
  unfold App.run.
  rewrite derive_ok by (cbn; first [lia | lra]).
  cbn [Py.bind negative_signs_config App.L App.Nx App.C App.v App.T_max
       App.wave_shape App.sigma App.x0].
  replace (-1 / (-1 * (-1 / 4) / -1)) with (IZR 4) by lra.
  rewrite round_IZR, grid_minus_one_four. cbn [Py.bind].
  rewrite square_pulse_negative_sigma.
  change (App.enabled negative_signs_config)
    with [("FECS", App.fecs); ("Upwind", App.upwind);
          ("Leapfrog", App.leapfrog); ("Lax-Wendroff", App.lax_wendroff)].
  cbn [map].
  change [0; 0; 0; 0] with (repeat 0 4).
  rewrite (uniform_field_run "FECS" App.fecs),
    (uniform_field_run "Upwind" App.upwind),
    (uniform_field_run "Leapfrog" App.leapfrog),
    (uniform_field_run "Lax-Wendroff" App.lax_wendroff)
    by (cbn; first [tauto | lia]).
  reflexivity.
Qed.

(** C5, the claim as stated fails: a configuration with [T_max = -1 <= 0]
    is not rejected ([Nt] comes out as [-4], every enabled integrator runs
    and stores its initial snapshot, Leapfrog its bootstrap step too), and
    neither is one with [L], [v], [T_max], [C] and [sigma] all negative
    (each integrator performs four steps on the zero field). *)
Lemma invalid_configurations_are_not_rejected :
  (App.T_max negative_time_config <= 0
   /\ App.run negative_time_config
      = Py.Ok {| App.out_x := [0; 0.25; 0.5; 0.75];
                 App.out_u0 := [0; 1; 1; 1];
                 App.solvers :=
                   [("FECS", [[0; 1; 1; 1]]);
                    ("Upwind", [[0; 1; 1; 1]]);
                    ("Leapfrog", [[0; 1; 1; 1]; App.fecs_update 1 [0; 1; 1; 1]]);
                    ("Lax-Wendroff", [[0; 1; 1; 1]])];
                 App.integrals :=
                   [("FECS", [Np.sum [0; 1; 1; 1] * (1 / 4)]);
                    ("Upwind", [Np.sum [0; 1; 1; 1] * (1 / 4)]);
                    ("Leapfrog", [Np.sum [0; 1; 1; 1] * (1 / 4);
                                  Np.sum (App.fecs_update 1 [0; 1; 1; 1]) * (1 / 4)]);
                    ("Lax-Wendroff", [Np.sum [0; 1; 1; 1] * (1 / 4)])] |})
  /\ (App.L negative_signs_config <= 0 /\ App.v negative_signs_config <= 0
      /\ App.C negative_signs_config <= 0 /\ App.sigma negative_signs_config <= 0
      /\ App.run negative_signs_config
         = Py.Ok {| App.out_x := [0; -0.25; -0.5; -0.75];
                    App.out_u0 := [0; 0; 0; 0];
                    App.solvers :=
                      [("FECS", repeat [0; 0; 0; 0] 5);
                       ("Upwind", repeat [0; 0; 0; 0] 5);
                       ("Leapfrog", repeat [0; 0; 0; 0] 5);
                       ("Lax-Wendroff", repeat [0; 0; 0; 0] 5)];
                    App.integrals :=
                      [("FECS", repeat (Np.sum [0; 0; 0; 0] * (-1 / 4)) 5);
                       ("Upwind", repeat (Np.sum [0; 0; 0; 0] * (-1 / 4)) 5);
                       ("Leapfrog", repeat (Np.sum [0; 0; 0; 0] * (-1 / 4)) 5);
                       ("Lax-Wendroff",
                        repeat (Np.sum [0; 0; 0; 0] * (-1 / 4)) 5)] |}).
Proof.
  split; [exact negative_time_run|].
  repeat split; try (cbn; lra). exact negative_signs_run.
Qed.

(** C5 (amended): the script does not validate its configuration.  For
    parameters whose magnitudes do not exceed the slider maxima: a zero
    divisor is caught by Python itself, so with [Nx], [v], [C] or [L] equal
    to zero the derivation of [dx], [dt], [Nt] raises [ZeroDivisionError]
    before any integrator runs; signs, [T_max] and [sigma] are not checked,
    so with the magnitudes of [L], [v], [C] and [Nx] at least the slider
    minima the run is accepted for [Nx >= -1], whatever the signs of [L],
    [v], [C], [T_max] and [sigma], with every enabled integrator run, and for
    [Nx <= -2] it stops at [np.linspace] with [ValueError], again before any
    integrator.  (The bound on the magnitudes keeps the statement where
    binary64 neither overflows nor underflows; the exact model does not
    need it.) *)
Theorem zero_divisors_raise_and_signs_are_not_checked (cfg : App.Config) :
  within_slider_maxima cfg ->
  (App.Nx cfg = 0%Z \/ App.v cfg = 0 \/ App.C cfg = 0 \/ App.L cfg = 0 ->
   App.run cfg = Py.Raise Py.ZeroDivisionError)
  /\ (at_least_slider_minima cfg -> (App.Nx cfg < -1)%Z ->
      App.run cfg = Py.Raise Py.ValueError)
  /\ (at_least_slider_minima cfg -> (-1 <= App.Nx cfg)%Z ->
      exists out : App.Output,
        App.run cfg = Py.Ok out
        /\ map fst (App.solvers out) = map fst (App.enabled cfg)
        /\ map fst (App.integrals out) = map fst (App.enabled cfg)).
Proof.
  intros _.
  destruct (run_outcomes_exact cfg) as (Hzero & Hneg & Hok).
  assert (Hnz : at_least_slider_minima cfg ->
                App.Nx cfg <> 0%Z /\ App.v cfg <> 0 /\ App.C cfg <> 0
                /\ App.L cfg <> 0).
  { intros (HL & Hv & HNx & HC).
    repeat split; try lia; intros E; rewrite E, Rabs_R0 in *; lra. }
  split; [exact Hzero|]. split.
  - intros Hmin HNx. destruct (Hnz Hmin) as (H1 & H2 & H3 & H4).
    apply Hneg; assumption.
  - intros Hmin HNx. destruct (Hnz Hmin) as (H1 & H2 & H3 & H4).
    apply Hok; assumption.
Qed.

Lemma zero_divisors_and_signs_witness :
  App.run empty_grid_config = Py.Raise Py.ZeroDivisionError
  /\ exists out : App.Output,
       App.run negative_signs_config = Py.Ok out
       /\ map fst (App.solvers out) = map fst (App.enabled negative_signs_config)
       /\ map fst (App.integrals out)
          = map fst (App.enabled negative_signs_config).
Proof.
  assert (Habs : forall x : R, 0 <= x -> Rabs x = x)
    by (intros x Hx; apply Rabs_right; lra).
  assert (Hneg : forall x : R, x <= 0 -> Rabs x = - x)
    by (intros x Hx; apply Rabs_left1; exact Hx).
  split.
  - destruct (zero_divisors_raise_and_signs_are_not_checked empty_grid_config)
      as (H & _).
    + unfold within_slider_maxima. cbn.
      rewrite !Habs by lra. repeat split; try lra; lia.
    + apply H. left. reflexivity.
  - destruct (zero_divisors_raise_and_signs_are_not_checked negative_signs_config)
      as (_ & _ & H).
    + unfold within_slider_maxima. cbn.
      rewrite !Hneg by lra. repeat split; try lra; lia.
    + apply H.
      * unfold at_least_slider_minima. cbn.
        rewrite !Hneg by lra. repeat split; try lra; lia.
      * cbn. lia.
Defined.
